(** * The UDP input service (services/udp/service.go)

    A shallow embedding of the service's goroutines as one labelled
    transition system.  Each goroutine of [RunWithReady] (the supervisor,
    [serve] with its nested read loop, [parser] and [writer]) is a little
    machine with a program counter; an [Action] names which goroutine moves
    and carries what the environment answers (a datagram, a clock reading, a
    batch released by the batcher, the results of the net package).  The two
    collaborators the [Service] struct holds as interface values
    ([PointsWriter], [MetaClient]) are records of functions over an abstract
    [World].  What a step does to the outside is recorded as a list of
    [Event]s. *)

From Stdlib Require Import ZArith List String Bool Lia.
From Stdlib Require Import Strings.Byte.
Import ListNotations.

Set Implicit Arguments.
#[local] Open Scope Z_scope.

(** ** Go base types *)

(** Go's [error] interface, by its message; [nil] is [None]. *)
Definition error : Type := string.

(** [[]byte]. *)
Definition bytes : Type := list byte.

(** [time.Time], as nanoseconds since the epoch. *)
Definition Instant : Type := Z.

(** [*net.UDPAddr], by its textual form. *)
Definition UDPAddr : Type := string.

Module Int64.
Definition min : Z := - 2 ^ 63.
Definition max : Z := 2 ^ 63 - 1.
Definition in_range (z : Z) : Prop := min <= z <= max.
(** Two's complement wrap-around of a mathematical integer into int64. *)
Definition wrap (z : Z) : Z := (z + 2 ^ 63) mod 2 ^ 64 - 2 ^ 63.
End Int64.

(** [atomic.AddInt64(&v, delta)]: the new value of [v]. *)
Definition AddInt64 (v delta : Z) : Z := Int64.wrap (v + delta).

(** ** Constants *)

Definition parserChanLen : nat := 1000.
Definition MaxUDPPayload : Z := 64 * 1024.

(** ** Statistics *)

Record Statistics : Type := mkStatistics {
  PointsReceived : Z;
  BytesReceived : Z;
  PointsParseFail : Z;
  ReadFail : Z;
  BatchesTransmitted : Z;
  PointsTransmitted : Z;
  BatchesTransmitFail : Z
}.

(** [&Statistics{}] *)
Definition zeroStatistics : Statistics := mkStatistics 0 0 0 0 0 0 0.

Definition addPointsReceived (d : Z) (st : Statistics) : Statistics :=
  mkStatistics (AddInt64 (PointsReceived st) d) (BytesReceived st)
    (PointsParseFail st) (ReadFail st) (BatchesTransmitted st)
    (PointsTransmitted st) (BatchesTransmitFail st).

Definition addBytesReceived (d : Z) (st : Statistics) : Statistics :=
  mkStatistics (PointsReceived st) (AddInt64 (BytesReceived st) d)
    (PointsParseFail st) (ReadFail st) (BatchesTransmitted st)
    (PointsTransmitted st) (BatchesTransmitFail st).

Definition addPointsParseFail (d : Z) (st : Statistics) : Statistics :=
  mkStatistics (PointsReceived st) (BytesReceived st)
    (AddInt64 (PointsParseFail st) d) (ReadFail st) (BatchesTransmitted st)
    (PointsTransmitted st) (BatchesTransmitFail st).

Definition addReadFail (d : Z) (st : Statistics) : Statistics :=
  mkStatistics (PointsReceived st) (BytesReceived st)
    (PointsParseFail st) (AddInt64 (ReadFail st) d) (BatchesTransmitted st)
    (PointsTransmitted st) (BatchesTransmitFail st).

Definition addBatchesTransmitted (d : Z) (st : Statistics) : Statistics :=
  mkStatistics (PointsReceived st) (BytesReceived st)
    (PointsParseFail st) (ReadFail st) (AddInt64 (BatchesTransmitted st) d)
    (PointsTransmitted st) (BatchesTransmitFail st).

Definition addPointsTransmitted (d : Z) (st : Statistics) : Statistics :=
  mkStatistics (PointsReceived st) (BytesReceived st)
    (PointsParseFail st) (ReadFail st) (BatchesTransmitted st)
    (AddInt64 (PointsTransmitted st) d) (BatchesTransmitFail st).

Definition addBatchesTransmitFail (d : Z) (st : Statistics) : Statistics :=
  mkStatistics (PointsReceived st) (BytesReceived st)
    (PointsParseFail st) (ReadFail st) (BatchesTransmitted st)
    (PointsTransmitted st) (AddInt64 (BatchesTransmitFail st) d).

(** ** Configuration and collaborators *)

(** Modelled from the spec: the [Config] struct (config.go is not part of
    the sources); the options are those the spec's configuration surface
    lists and that service.go reads. *)
Record Config : Type := mkConfig {
  BindAddress : string;
  Database : string;
  RetentionPolicy : string;
  Precision : string;
  BatchSize : Z;
  BatchPending : Z;
  BatchTimeout : Z;
  ReadBuffer : Z
}.

(** Modelled from the spec: [models.ConsistencyLevel] (the models package
    is not part of the sources).  The spec knows one level, best-effort,
    which service.go names [ConsistencyLevelAny]; the other levels of the
    package play no part here. *)
Inductive ConsistencyLevel : Type :=
| ConsistencyLevelAny.

(** Modelled from the spec: [tsdb.PointBatcher] (not part of the sources).
    The service only builds it, starts it, sends into [In()] and receives
    from [Out()]; which batches come out, and when, is the batcher's
    business and is left to the environment. *)
Record PointBatcher : Type := mkPointBatcher {
  batcher_size : Z;
  batcher_pending : Z;
  batcher_duration : Z;
  batcher_started : bool
}.

Definition NewPointBatcher (sz bp d : Z) : PointBatcher :=
  mkPointBatcher sz bp d false.

Definition batcher_Start (b : PointBatcher) : PointBatcher :=
  mkPointBatcher (batcher_size b) (batcher_pending b) (batcher_duration b) true.

(** [*net.UDPConn]: the address it is bound to, the receive buffer size set
    on it (if any) and whether [Close] was called. *)
Record UDPConn : Type := mkUDPConn {
  conn_laddr : UDPAddr;
  conn_rcvbuf : option Z;
  conn_closed : bool
}.

Definition conn_Close (c : UDPConn) : UDPConn :=
  mkUDPConn (conn_laddr c) (conn_rcvbuf c) true.

(** The [readpayload] struct local to [serve]. *)
Record readpayload : Type := mkReadpayload {
  nbytes : Z;
  err : option error
}.

Section Model.

(** [models.Point] *)
Variable Point : Type.

(** The state of whatever stands behind the two collaborators. *)
Variable World : Type.

(** The [PointsWriter] interface: [WritePointsPrivileged(database,
    retentionPolicy, consistencyLevel, points) error]. *)
Record PointsWriterI : Type := mkPointsWriter {
  WritePointsPrivileged :
    string -> string -> ConsistencyLevel -> list Point -> World ->
    option error * World
}.

(** The [MetaClient] interface: [CreateDatabase(name)] returns a pointer to
    a [meta.DatabaseInfo] and an error.  The only caller drops the
    [DatabaseInfo], so only the error is kept. *)
Record MetaClientI : Type := mkMetaClient {
  CreateDatabase : string -> World -> option error * World
}.

(** [models.ParsePointsWithPrecision(buf, defaultTime, precision)
    ([]Point, error)]. *)
Variable ParsePointsWithPrecision :
  bytes -> Instant -> string -> list Point * option error.

(** ** The Service struct

    [Logger] output is an event; [defaultTags] and the members used for
    testing ([ctx], [cancel], [errChan]) play no part in [RunWithReady] and
    are left out. *)
Record Service : Type := mkService {
  conn : option UDPConn;
  addr : option UDPAddr;
  wg : nat;
  ready : bool;
  parserChan : list bytes;
  batcher : option PointBatcher;
  config : Config;
  PointsWriter : PointsWriterI;
  MetaClient : MetaClientI;
  stats : Statistics
}.

Definition set_conn (x : option UDPConn) (s : Service) : Service :=
  mkService x (addr s) (wg s) (ready s) (parserChan s) (batcher s) (config s)
    (PointsWriter s) (MetaClient s) (stats s).

Definition set_addr (x : option UDPAddr) (s : Service) : Service :=
  mkService (conn s) x (wg s) (ready s) (parserChan s) (batcher s) (config s)
    (PointsWriter s) (MetaClient s) (stats s).

Definition set_wg (x : nat) (s : Service) : Service :=
  mkService (conn s) (addr s) x (ready s) (parserChan s) (batcher s) (config s)
    (PointsWriter s) (MetaClient s) (stats s).

Definition set_ready (x : bool) (s : Service) : Service :=
  mkService (conn s) (addr s) (wg s) x (parserChan s) (batcher s) (config s)
    (PointsWriter s) (MetaClient s) (stats s).

Definition set_parserChan (x : list bytes) (s : Service) : Service :=
  mkService (conn s) (addr s) (wg s) (ready s) x (batcher s) (config s)
    (PointsWriter s) (MetaClient s) (stats s).

Definition set_batcher (x : option PointBatcher) (s : Service) : Service :=
  mkService (conn s) (addr s) (wg s) (ready s) (parserChan s) x (config s)
    (PointsWriter s) (MetaClient s) (stats s).

Definition set_stats (x : Statistics) (s : Service) : Service :=
  mkService (conn s) (addr s) (wg s) (ready s) (parserChan s) (batcher s)
    (config s) (PointsWriter s) (MetaClient s) x.

(** [NewService], after [c.WithDefaults()] (config.go, not part of the
    sources) has produced [d]; the two collaborators are assigned by the
    caller before the service runs. *)
Definition NewService (d : Config) (pw : PointsWriterI) (mc : MetaClientI)
  : Service :=
  mkService None None 0%nat false [] None d pw mc zeroStatistics.

(** ** Goroutines

    One program counter per goroutine.  [Idle] is "not launched". *)

(** [RunWithReady] itself: not called yet, blocked in [s.wg.Wait()], or
    returned with its result. *)
Inductive MainPC : Type :=
| MainIdle
| MainWait
| MainReturned (e : option error).

(** The outer loop of [serve]: at its [select], holding a payload just
    received from [payloadChan], or about to send [bufCopy] into
    [s.parserChan]. *)
Inductive ServePC : Type :=
| ServeIdle
| ServeSelect
| ServePayload (payload : readpayload)
| ServeSend (bufCopy : bytes)
| ServeReturned.

(** The anonymous goroutine of [serve]: about to call [ReadFromUDP], or
    about to hand [payload] over on the unbuffered [payloadChan]. *)
Inductive ReaderPC : Type :=
| ReaderIdle
| ReaderRead
| ReaderHandoff (payload : readpayload).

(** [parser]: at its [select], or inside [for _, point := range points]
    with [todo] still to be sent. *)
Inductive ParserPC : Type :=
| ParserIdle
| ParserSelect
| ParserRange (points todo : list Point)
| ParserReturned.

Inductive WriterPC : Type :=
| WriterIdle
| WriterSelect
| WriterReturned.

(** The whole running system: the [Service], the collaborators' world, the
    caller's context and ready channel, the read buffer [buf] that the two
    loops of [serve] share, and the program counters. *)
Record Machine : Type := mkMachine {
  svc : Service;
  world : World;
  ctx_done : bool;
  ready_closed : bool;
  buf : bytes;
  main_pc : MainPC;
  serve_pc : ServePC;
  reader_pc : ReaderPC;
  parser_pc : ParserPC;
  writer_pc : WriterPC
}.

Definition set_svc (x : Service) (m : Machine) : Machine :=
  mkMachine x (world m) (ctx_done m) (ready_closed m) (buf m) (main_pc m)
    (serve_pc m) (reader_pc m) (parser_pc m) (writer_pc m).

Definition set_world (x : World) (m : Machine) : Machine :=
  mkMachine (svc m) x (ctx_done m) (ready_closed m) (buf m) (main_pc m)
    (serve_pc m) (reader_pc m) (parser_pc m) (writer_pc m).

Definition set_ctx_done (x : bool) (m : Machine) : Machine :=
  mkMachine (svc m) (world m) x (ready_closed m) (buf m) (main_pc m)
    (serve_pc m) (reader_pc m) (parser_pc m) (writer_pc m).

Definition set_ready_closed (x : bool) (m : Machine) : Machine :=
  mkMachine (svc m) (world m) (ctx_done m) x (buf m) (main_pc m)
    (serve_pc m) (reader_pc m) (parser_pc m) (writer_pc m).

Definition set_buf (x : bytes) (m : Machine) : Machine :=
  mkMachine (svc m) (world m) (ctx_done m) (ready_closed m) x (main_pc m)
    (serve_pc m) (reader_pc m) (parser_pc m) (writer_pc m).

Definition set_main_pc (x : MainPC) (m : Machine) : Machine :=
  mkMachine (svc m) (world m) (ctx_done m) (ready_closed m) (buf m) x
    (serve_pc m) (reader_pc m) (parser_pc m) (writer_pc m).

Definition set_serve_pc (x : ServePC) (m : Machine) : Machine :=
  mkMachine (svc m) (world m) (ctx_done m) (ready_closed m) (buf m) (main_pc m)
    x (reader_pc m) (parser_pc m) (writer_pc m).

Definition set_reader_pc (x : ReaderPC) (m : Machine) : Machine :=
  mkMachine (svc m) (world m) (ctx_done m) (ready_closed m) (buf m) (main_pc m)
    (serve_pc m) x (parser_pc m) (writer_pc m).

Definition set_parser_pc (x : ParserPC) (m : Machine) : Machine :=
  mkMachine (svc m) (world m) (ctx_done m) (ready_closed m) (buf m) (main_pc m)
    (serve_pc m) (reader_pc m) x (writer_pc m).

Definition set_writer_pc (x : WriterPC) (m : Machine) : Machine :=
  mkMachine (svc m) (world m) (ctx_done m) (ready_closed m) (buf m) (main_pc m)
    (serve_pc m) (reader_pc m) (parser_pc m) x.

(** The machine before [RunWithReady] is called. *)
Definition boot (s : Service) (w : World) : Machine :=
  mkMachine s w false false [] MainIdle ServeIdle ReaderIdle ParserIdle
    WriterIdle.

(** ** Events and actions *)

(** What a step does to the outside, in order: a log line (by its
    message), a call of a collaborator with its result, a send into
    [s.parserChan], a payload taken by the parser together with the clock
    reading passed to the decoder, a point sent into [s.batcher.In()]. *)
Inductive Event : Type :=
| EvLog (msg : string)
| EvCreateDatabase (name : string) (res : option error)
| EvWritePoints (database retentionPolicy : string) (lvl : ConsistencyLevel)
    (points : list Point) (res : option error)
| EvRelay (payload : bytes)
| EvParse (payload : bytes) (now : Instant)
| EvBatcherIn (point : Point).

(** Which goroutine moves, with the environment's part of the move. *)
Inductive Action : Type :=
| ARunWithReady (resolve : UDPAddr + error) (listen setbuf : option error)
| ACancel
| AReadFromUDP (r : bytes + error)
| AServeDone
| AServeRecv
| AServeHandle
| AServeSend
| AParserDone
| AParserRecv (now : Instant)
| AParserSend
| AParserCount
| AWriterDone
| AWriterRecv (batch : list Point)
| AWaitReturn.

Definition Outcome : Type := (Machine * list Event)%type.

Definition update_stats (f : Statistics -> Statistics) (m : Machine) : Machine :=
  set_svc (set_stats (f (stats (svc m))) (svc m)) m.

(** [defer s.wg.Done()] at the return of a stage. *)
Definition wg_Done (m : Machine) : Machine :=
  set_svc (set_wg (Nat.pred (wg (svc m))) (svc m)) m.

(** ** RunWithReady, up to [s.wg.Wait()] *)

Definition returns (e : error) (m : Machine) : Machine :=
  set_main_pc (MainReturned (Some e)) m.

(** From [tsdb.NewPointBatcher] to [close(ready)]: the batcher is built and
    started, the three stages are launched ([serve] allocates [buf] and
    starts its read loop as it begins), the ready channel is closed and the
    supervisor blocks in [s.wg.Wait()]. *)
Definition launch (m : Machine) : Outcome :=
  let s := svc m in
  let b := NewPointBatcher (BatchSize (config s)) (BatchPending (config s))
             (BatchTimeout (config s)) in
  let s := set_batcher (Some (batcher_Start b)) s in
  let s := set_wg (wg s + 3)%nat s in
  (mkMachine s (world m) (ctx_done m) true
     (repeat x00 (Z.to_nat MaxUDPPayload))
     MainWait ServeSelect ReaderRead ParserSelect WriterSelect,
   [EvLog "Started listening on UDP"%string]).

Definition RunWithReady (resolve : UDPAddr + error)
    (listen setbuf : option error) (m : Machine) : Outcome :=
  let s := svc m in
  if String.eqb (BindAddress (config s)) EmptyString then
    (returns "bind address has to be specified in config"%string m, [])
  else if String.eqb (Database (config s)) EmptyString then
    (returns "database has to be specified in config"%string m, [])
  else
    match resolve with
    | inr e =>
        (returns e (set_svc (set_addr None s) m),
         [EvLog "Failed to resolve UDP address"%string])
    | inl a =>
        let s := set_addr (Some a) s in
        match listen with
        | Some e =>
            (returns e (set_svc (set_conn None s) m),
             [EvLog "Failed to set up UDP listener"%string])
        | None =>
            let c := mkUDPConn a None false in
            if ReadBuffer (config s) =? 0 then
              launch (set_svc (set_conn (Some c) s) m)
            else
              match setbuf with
              | Some e =>
                  (returns e (set_svc (set_conn (Some c) s) m),
                   [EvLog "Failed to set UDP read buffer"%string])
              | None =>
                  let c := mkUDPConn a (Some (ReadBuffer (config s))) false in
                  launch (set_svc (set_conn (Some c) s) m)
              end
        end
    end.

(** [Run]: [RunWithReady] with a ready channel of its own. *)
Definition Run (resolve : UDPAddr + error) (listen setbuf : option error)
    (m : Machine) : Outcome :=
  RunWithReady resolve listen setbuf (set_ready_closed false m).

(** [s.wg.Wait()] returns once the counter is zero. *)
Definition wait_return (m : Machine) : option Outcome :=
  match main_pc m, wg (svc m) with
  | MainWait, O =>
      Some (set_main_pc (MainReturned None) m, [EvLog "Service closed"%string])
  | _, _ => None
  end.

(** ** serve *)

(** [s.conn.ReadFromUDP(buf)] in the read loop: a datagram is written over
    the head of [buf] (cut to the buffer's length), or the read fails.  A
    closed connection delivers nothing. *)
Definition read_from_udp (r : bytes + error) (m : Machine) : option Outcome :=
  match reader_pc m, conn (svc m) with
  | ReaderRead, Some c =>
      match r with
      | inl data =>
          if conn_closed c then None
          else
            let n := Nat.min (List.length data) (List.length (buf m)) in
            Some (set_reader_pc
                    (ReaderHandoff (mkReadpayload (Z.of_nat n) None))
                    (set_buf (firstn n data ++ skipn n (buf m)) m), [])
      | inr e =>
          Some (set_reader_pc (ReaderHandoff (mkReadpayload 0 (Some e))) m, [])
      end
  | _, _ => None
  end.

(** [case <-ctx.Done(): s.conn.Close(); return] *)
Definition serve_done (m : Machine) : option Outcome :=
  match serve_pc m with
  | ServeSelect =>
      if ctx_done m then
        let s := set_conn (option_map conn_Close (conn (svc m))) (svc m) in
        Some (wg_Done (set_serve_pc ServeReturned (set_svc s m)), [])
      else None
  | _ => None
  end.

(** [case payload := <-payloadChan]: the rendezvous with the read loop,
    which goes on to its next read. *)
Definition serve_recv (m : Machine) : option Outcome :=
  match serve_pc m, reader_pc m with
  | ServeSelect, ReaderHandoff p =>
      Some (set_serve_pc (ServePayload p) (set_reader_pc ReaderRead m), [])
  | _, _ => None
  end.

(** The body of the payload case up to the send: a failed read is counted
    and logged; otherwise the bytes are counted and [buf[:nbytes]] is
    copied. *)
Definition serve_handle (m : Machine) : option Outcome :=
  match serve_pc m with
  | ServePayload p =>
      match err p with
      | Some _ =>
          Some (set_serve_pc ServeSelect (update_stats (addReadFail 1) m),
                [EvLog "Failed to read UDP message"%string])
      | None =>
          let bufCopy := firstn (Z.to_nat (nbytes p)) (buf m) in
          Some (set_serve_pc (ServeSend bufCopy)
                  (update_stats (addBytesReceived (nbytes p)) m), [])
      end
  | _ => None
  end.

(** [s.parserChan <- bufCopy]: blocks while the channel holds
    [parserChanLen] payloads. *)
Definition serve_send (m : Machine) : option Outcome :=
  match serve_pc m with
  | ServeSend bufCopy =>
      if (List.length (parserChan (svc m)) <? parserChanLen)%nat then
        let s := set_parserChan (parserChan (svc m) ++ [bufCopy]) (svc m) in
        Some (set_serve_pc ServeSelect (set_svc s m), [EvRelay bufCopy])
      else None
  | _ => None
  end.

(** ** parser *)

Definition parser_done (m : Machine) : option Outcome :=
  match parser_pc m with
  | ParserSelect =>
      if ctx_done m then Some (wg_Done (set_parser_pc ParserReturned m), [])
      else None
  | _ => None
  end.

(** [case buf := <-s.parserChan] with the decoding that follows. *)
Definition parser_recv (now : Instant) (m : Machine) : option Outcome :=
  match parser_pc m, parserChan (svc m) with
  | ParserSelect, b :: q =>
      let m := set_svc (set_parserChan q (svc m)) m in
      let '(points, e) :=
        ParsePointsWithPrecision b now (Precision (config (svc m))) in
      match e with
      | Some _ =>
          Some (update_stats (addPointsParseFail 1) m,
                [EvParse b now; EvLog "Failed to parse points"%string])
      | None =>
          Some (set_parser_pc (ParserRange points points) m, [EvParse b now])
      end
  | _, _ => None
  end.

(** [s.batcher.In() <- point] *)
Definition parser_send (m : Machine) : option Outcome :=
  match parser_pc m with
  | ParserRange points (p :: todo) =>
      Some (set_parser_pc (ParserRange points todo) m, [EvBatcherIn p])
  | _ => None
  end.

(** [atomic.AddInt64(&s.stats.PointsReceived, int64(len(points)))] after
    the range loop. *)
Definition parser_count (m : Machine) : option Outcome :=
  match parser_pc m with
  | ParserRange points [] =>
      Some (set_parser_pc ParserSelect
              (update_stats
                 (addPointsReceived (Z.of_nat (List.length points))) m), [])
  | _ => None
  end.

(** ** writer *)

(** [createInternalStorage]: the error it returns, the machine after it and
    what it did. *)
Definition createInternalStorage (m : Machine)
  : option error * Machine * list Event :=
  let s := svc m in
  if ready s then (None, m, [])
  else
    let name := Database (config s) in
    let '(e, w) := CreateDatabase (MetaClient s) name (world m) in
    match e with
    | Some _ => (e, set_world w m, [EvCreateDatabase name e])
    | None =>
        (None, set_svc (set_ready true s) (set_world w m),
         [EvCreateDatabase name None])
    end.

(** The body of [case batch := <-s.batcher.Out()]. *)
Definition writer_batch (batch : list Point) (m : Machine) : Outcome :=
  let '(e, m, evs) := createInternalStorage m in
  match e with
  | Some _ => (m, evs ++ [EvLog "Required database does not yet exist"%string])
  | None =>
      let s := svc m in
      let db := Database (config s) in
      let rp := RetentionPolicy (config s) in
      let '(r, w) :=
        WritePointsPrivileged (PointsWriter s) db rp ConsistencyLevelAny batch
          (world m) in
      let m := set_world w m in
      let ev := EvWritePoints db rp ConsistencyLevelAny batch r in
      match r with
      | None =>
          (update_stats (addPointsTransmitted (Z.of_nat (List.length batch)))
             (update_stats (addBatchesTransmitted 1) m),
           evs ++ [ev])
      | Some _ =>
          (update_stats (addBatchesTransmitFail 1) m,
           evs ++ [ev; EvLog "Failed to write point batch to database"%string])
      end
  end.

Definition writer_done (m : Machine) : option Outcome :=
  match writer_pc m with
  | WriterSelect =>
      if ctx_done m then Some (wg_Done (set_writer_pc WriterReturned m), [])
      else None
  | _ => None
  end.

Definition writer_recv (batch : list Point) (m : Machine) : option Outcome :=
  match writer_pc m with
  | WriterSelect => Some (writer_batch batch m)
  | _ => None
  end.

(** ** The transition system *)

(** [serve], its read loop included: the moves of the listener. *)
Definition serve (a : Action) (m : Machine) : option Outcome :=
  match a with
  | AReadFromUDP r => read_from_udp r m
  | AServeDone => serve_done m
  | AServeRecv => serve_recv m
  | AServeHandle => serve_handle m
  | AServeSend => serve_send m
  | _ => None
  end.

(** [parser]: the moves of the decoder stage. *)
Definition parser (a : Action) (m : Machine) : option Outcome :=
  match a with
  | AParserDone => parser_done m
  | AParserRecv now => parser_recv now m
  | AParserSend => parser_send m
  | AParserCount => parser_count m
  | _ => None
  end.

(** [writer]: the moves of the delivery stage. *)
Definition writer (a : Action) (m : Machine) : option Outcome :=
  match a with
  | AWriterDone => writer_done m
  | AWriterRecv batch => writer_recv batch m
  | _ => None
  end.

(** One move; [None] when the goroutine is not at that point or is blocked
    there. *)
Definition step (a : Action) (m : Machine) : option Outcome :=
  match a with
  | ARunWithReady resolve listen setbuf =>
      match main_pc m with
      | MainIdle => Some (RunWithReady resolve listen setbuf m)
      | _ => None
      end
  | ACancel => Some (set_ctx_done true m, [])
  | AWaitReturn => wait_return m
  | AReadFromUDP _ | AServeDone | AServeRecv | AServeHandle | AServeSend =>
      serve a m
  | AParserDone | AParserRecv _ | AParserSend | AParserCount => parser a m
  | AWriterDone | AWriterRecv _ => writer a m
  end.

(** A schedule entry that cannot move leaves the machine where it is. *)
Definition exec (a : Action) (m : Machine) : Outcome :=
  match step a m with
  | Some r => r
  | None => (m, [])
  end.

Fixpoint run (acts : list Action) (m : Machine) : Outcome :=
  match acts with
  | [] => (m, [])
  | a :: rest =>
      let '(m1, e1) := exec a m in
      let '(m2, e2) := run rest m1 in
      (m2, e1 ++ e2)
  end.

End Model.

Arguments boot {Point World} s w.
Arguments ParserIdle {Point}.
Arguments ParserSelect {Point}.
Arguments ParserReturned {Point}.
Arguments ACancel {Point}.
Arguments AServeDone {Point}.
Arguments AServeRecv {Point}.
Arguments AServeHandle {Point}.
Arguments AServeSend {Point}.
Arguments AParserDone {Point}.
Arguments AParserRecv {Point} now.
Arguments AParserSend {Point}.
Arguments AParserCount {Point}.
Arguments AWriterDone {Point}.
Arguments AWaitReturn {Point}.
Arguments ARunWithReady {Point} resolve listen setbuf.
Arguments AReadFromUDP {Point} r.
Arguments EvLog {Point} msg.
Arguments EvCreateDatabase {Point} name res.
Arguments EvRelay {Point} payload.
Arguments EvParse {Point} payload now.

(** ** Observations

    What the properties speak about, read off a run's events and states. *)

Section Observations.

Variable Point : Type.
Variable World : Type.
Variable ParsePointsWithPrecision :
  bytes -> Instant -> string -> list Point * option error.

(** The points sent into [s.batcher.In()], in order. *)
Definition batcher_in (evs : list (Event Point)) : list Point :=
  flat_map (fun e => match e with EvBatcherIn p => [p] | _ => [] end) evs.

(** The payloads sent into [s.parserChan], in order. *)
Definition relayed (evs : list (Event Point)) : list bytes :=
  flat_map (fun e => match e with EvRelay b => [b] | _ => [] end) evs.

(** The payloads the parser took, each with the clock reading it was
    decoded at, in order. *)
Definition parsed (evs : list (Event Point)) : list (bytes * Instant) :=
  flat_map (fun e => match e with EvParse b t => [(b, t)] | _ => [] end) evs.

(** The results of the [CreateDatabase] calls, in order. *)
Definition creates (evs : list (Event Point)) : list (option error) :=
  flat_map (fun e => match e with EvCreateDatabase _ r => [r] | _ => [] end)
    evs.

(** The batches passed to [WritePointsPrivileged], each with the call's
    result, in order. *)
Definition writes (evs : list (Event Point))
  : list (list Point * option error) :=
  flat_map
    (fun e => match e with EvWritePoints _ _ _ b r => [(b, r)] | _ => [] end)
    evs.

(** What a payload contributes when decoded at a given time: its points
    when the decoder reports no error, nothing otherwise. *)
Definition decoded (precision : string) (x : bytes * Instant) : list Point :=
  match ParsePointsWithPrecision (fst x) (snd x) precision with
  | (points, None) => points
  | (_, Some _) => []
  end.

(** The points of the payload in hand that the parser has yet to send. *)
Definition pending (m : Machine Point World) : list Point :=
  match parser_pc m with
  | ParserRange _ todo => todo
  | _ => []
  end.

(** The moves of the [parser] goroutine. *)
Definition parser_action (a : Action Point) : bool :=
  match a with
  | AParserDone | AParserRecv _ | AParserSend | AParserCount => true
  | _ => false
  end.

Definition is_writer_recv (a : Action Point) : bool :=
  match a with
  | AWriterRecv _ => true
  | _ => false
  end.

(** Stages launched and not yet returned, as [s.wg] counts them. *)
Definition serve_alive (m : Machine Point World) : nat :=
  match serve_pc m with
  | ServeIdle | ServeReturned => 0
  | _ => 1
  end.

Definition parser_alive (m : Machine Point World) : nat :=
  match parser_pc m with
  | ParserIdle | ParserReturned => 0
  | _ => 1
  end.

Definition writer_alive (m : Machine Point World) : nat :=
  match writer_pc m with
  | WriterIdle | WriterReturned => 0
  | _ => 1
  end.

Definition stages_idle (m : Machine Point World) : Prop :=
  serve_pc m = ServeIdle /\ reader_pc m = ReaderIdle /\
  parser_pc m = ParserIdle /\ writer_pc m = WriterIdle.

Definition stages_returned (m : Machine Point World) : Prop :=
  serve_pc m = ServeReturned /\ parser_pc m = ParserReturned /\
  writer_pc m = WriterReturned.

(** The socket as the listener leaves it: bound and open while [serve]
    runs, closed once it has returned. *)
Definition conn_state (m : Machine Point World) : Prop :=
  match serve_pc m with
  | ServeIdle => True
  | ServeReturned => exists c, conn (svc m) = Some c /\ conn_closed c = true
  | _ => exists c, conn (svc m) = Some c /\ conn_closed c = false
  end.

(** What holds of every machine reachable from [boot]: the wait group
    counts the live stages, the supervisor's state bounds theirs, and the
    socket follows the listener. *)
Definition Inv (m : Machine Point World) : Prop :=
  wg (svc m) = (serve_alive m + parser_alive m + writer_alive m)%nat /\
  conn_state m /\
  match main_pc m with
  | MainIdle => stages_idle m /\ ready_closed m = false
  | MainReturned (Some _) => stages_idle m /\ ready_closed m = false
  | MainWait =>
      serve_pc m <> ServeIdle /\ parser_pc m <> ParserIdle /\
      writer_pc m <> WriterIdle /\ ready_closed m = true
  | MainReturned None => stages_returned m /\ ready_closed m = true
  end.

(** The parser's share of the machine is untouched between [m] and [m']:
    its program counter, its two counters and the configuration are the
    same, and its channel has only grown at the tail. *)
Definition parser_kept (m m' : Machine Point World) : Prop :=
  parser_pc m' = parser_pc m /\
  PointsReceived (stats (svc m')) = PointsReceived (stats (svc m)) /\
  PointsParseFail (stats (svc m')) = PointsParseFail (stats (svc m)) /\
  config (svc m') = config (svc m) /\
  (exists ext, parserChan (svc m') = parserChan (svc m) ++ ext) /\
  main_pc m' <> MainIdle.

(** The three counters of the delivery stage, and the four of the stages
    before it. *)
Definition delivery_counters (st : Statistics) : Z * Z * Z :=
  (BatchesTransmitted st, PointsTransmitted st, BatchesTransmitFail st).

Definition ingest_counters (st : Statistics) : Z * Z * Z * Z :=
  (PointsReceived st, BytesReceived st, PointsParseFail st, ReadFail st).

(** The three moves that take one result of [ReadFromUDP] through the
    listener, up to the send into the relay channel. *)
Definition read_and_handle (r : bytes + error) : list (Action Point) :=
  [AReadFromUDP r; AServeRecv; AServeHandle].

(** A second datagram is read between the listener's receipt of the first
    payload and its copy of the buffer. *)
Definition read_overtakes_copy (d1 d2 : bytes) : list (Action Point) :=
  [AReadFromUDP (inl d1); AServeRecv; AReadFromUDP (inl d2); AServeHandle;
   AServeSend].

(** The listener is blocked sending into a full relay channel that nobody
    will receive from any more, and the supervisor is waiting. *)
Definition jammed (m : Machine Point World) : Prop :=
  (exists bufCopy, serve_pc m = ServeSend bufCopy) /\
  parser_pc m = ParserReturned /\
  List.length (parserChan (svc m)) = parserChanLen /\
  main_pc m = MainWait.

(** A [CreateDatabase] result that is an error. *)
Definition is_error (r : option error) : Prop := r <> None.

End Observations.

Arguments read_and_handle {Point} r.
Arguments read_overtakes_copy {Point} d1 d2.

(** ** Test doubles

    Stand-ins for the collaborators, in the manner of the service's tests:
    points are numbers, a payload decodes to one point per byte up to the
    first [xff] byte, which makes it malformed; the world counts the calls
    made to the meta client and to the points writer, and each stub fails
    its first [n] calls. *)

Module Doubles.

Definition TPoint : Type := nat.
Definition TWorld : Type := (nat * nat)%type.

Fixpoint decode (b : bytes) : list TPoint * option error :=
  match b with
  | [] => ([], None)
  | xff :: _ => ([], Some "unable to parse"%string)
  | c :: rest =>
      let '(ps, e) := decode rest in (Byte.to_nat c :: ps, e)
  end.

Definition parse (b : bytes) (now : Instant) (precision : string)
  : list TPoint * option error := decode b.

Definition metaFailing (n : nat) : MetaClientI TWorld :=
  mkMetaClient (fun _ w =>
    (if (fst w <? n)%nat then Some "database unavailable"%string else None,
     (S (fst w), snd w))).

Definition writerFailing (n : nat) : PointsWriterI TPoint TWorld :=
  mkPointsWriter (fun _ _ _ _ w =>
    (if (snd w <? n)%nat then Some "write failed"%string else None,
     (fst w, S (snd w)))).

Definition cfg : Config :=
  mkConfig ":8089" "udp" "" "n" 5 1 1000000000 0.

Definition service (createFails writeFails : nat) : Service TPoint TWorld :=
  NewService cfg (writerFailing writeFails) (metaFailing createFails).

Definition start : Action TPoint := ARunWithReady (inl ":8089"%string) None None.

End Doubles.

(** ** Scenarios

    Concrete machines and schedules over the test doubles. *)

Module Scenarios.
Import Doubles.

Definition world0 : TWorld := (0%nat, 0%nat).

(** One datagram read, handled and relayed after the start. *)
Definition relay (data : bytes) : list (Action TPoint) :=
  [start; AReadFromUDP (inl data); AServeRecv; AServeHandle; AServeSend].

(** A started service with the payload [x01 x02] waiting in the relay
    channel; both collaborators work. *)
Definition fed : Machine TPoint TWorld :=
  fst (run parse (relay [x01; x02]) (boot (service 0 0) world0)).

(** The parser takes the payload, sends and counts while the context is
    cancelled and the writer handles a batch in between. *)
Definition interleaved : list (Action TPoint) :=
  [AParserRecv 5; ACancel; AParserSend; AWriterRecv [7%nat]; AParserSend;
   AParserCount].

(** A started service with the malformed payload [x01 xff] waiting: the
    decoder returns the point 1 beside its error. *)
Definition fed_malformed : Machine TPoint TWorld :=
  fst (run parse (relay [x01; xff]) (boot (service 0 0) world0)).

(** A started service whose first write failed: ready, one batch lost. *)
Definition after_failed_write : Machine TPoint TWorld :=
  fst (run parse [start; AWriterRecv [1%nat; 2%nat]]
         (boot (service 0 1) world0)).

(** A started service whose meta client fails its first call. *)
Definition started (createFails : nat) : Machine TPoint TWorld :=
  fst (run parse [start] (boot (service createFails 0) world0)).

(** Two batches arrive while the meta client keeps failing. *)
Definition two_batches : list (Action TPoint) :=
  [start; AWriterRecv [1%nat]; AWriterRecv [2%nat]].

(** A configuration without a bind address. *)
Definition cfg_no_bind : Config :=
  mkConfig EmptyString "udp" "" "n" 5 1 1000000000 0.

(** Cancellation right after the start: the listener closes the socket and
    returns, the read in flight fails, parser and writer return, the
    supervisor returns. *)
Definition closed_error : error := "use of closed network connection"%string.

Definition shutdown : list (Action TPoint) :=
  [start; ACancel; AServeDone; AReadFromUDP (inr closed_error); AParserDone;
   AWriterDone; AWaitReturn].

Definition stopped : Machine TPoint TWorld :=
  fst (run parse shutdown (boot (service 0 0) world0)).

(** The relay channel is filled by [parserChanLen] empty datagrams, one
    more is read and handled, then the context is cancelled and the parser
    and the writer take their cancellation branches. *)
Definition cycle : list (Action TPoint) :=
  [AReadFromUDP (inl []); AServeRecv; AServeHandle; AServeSend].

Definition jam : list (Action TPoint) :=
  start :: List.concat (repeat cycle parserChanLen)
    ++ [AReadFromUDP (inl []); AServeRecv; AServeHandle; ACancel;
        AParserDone; AWriterDone].

Definition jam_machine : Machine TPoint TWorld :=
  fst (run parse jam (boot (service 0 0) world0)).

End Scenarios.

(** ** Accounting

    What the counters are compared with: tallies of a run's events. *)

Section Accounting.

Variable Point : Type.
Variable World : Type.
Variable ParsePointsWithPrecision :
  bytes -> Instant -> string -> list Point * option error.

(** All seven counters hold int64 values. *)
Definition counters_in_range (st : Statistics) : Prop :=
  Int64.in_range (PointsReceived st) /\ Int64.in_range (BytesReceived st) /\
  Int64.in_range (PointsParseFail st) /\ Int64.in_range (ReadFail st) /\
  Int64.in_range (BatchesTransmitted st) /\
  Int64.in_range (PointsTransmitted st) /\
  Int64.in_range (BatchesTransmitFail st).

(** A write call that returned nil. *)
Definition succeeded (x : list Point * option error) : bool :=
  match snd x with
  | None => true
  | Some _ => false
  end.

(** The batches whose write call succeeded, and those whose write call
    failed, in order. *)
Definition delivered (evs : list (Event Point)) : list (list Point) :=
  map fst (filter succeeded (writes evs)).

Definition dropped (evs : list (Event Point)) : list (list Point) :=
  map fst (filter (fun x => negb (succeeded x)) (writes evs)).

(** Every collaborator call of [evs] names the configured database, and
    every write the configured retention policy and
    [ConsistencyLevelAny]. *)
Definition call_uses_config (d : Config) (e : Event Point) : Prop :=
  match e with
  | EvCreateDatabase name _ => name = Database d
  | EvWritePoints db rp lvl _ _ =>
      db = Database d /\ rp = RetentionPolicy d /\ lvl = ConsistencyLevelAny
  | _ => True
  end.

(** The taken payloads that the decoder rejected. *)
Definition rejected (precision : string) (x : bytes * Instant) : bool :=
  match snd (ParsePointsWithPrecision (fst x) (snd x) precision) with
  | Some _ => true
  | None => false
  end.

(** Of the payload in hand, the number of points already sent into the
    batcher: the length of [points] less that of [todo]. *)
Definition sent_in_hand (m : Machine Point World) : Z :=
  match parser_pc m with
  | ParserRange points todo =>
      Z.of_nat (List.length points) - Z.of_nat (List.length todo)
  | _ => 0
  end.

(** The size of the copy the listener is about to send into the relay
    channel. *)
Definition copy_in_hand (m : Machine Point World) : Z :=
  match serve_pc m with
  | ServeSend bufCopy => Z.of_nat (List.length bufCopy)
  | _ => 0
  end.

(** The total size of a list of payloads. *)
Definition total_bytes (l : list bytes) : Z :=
  Z.of_nat (List.length (List.concat l)).

(** The log lines of failed reads. *)
Definition read_failures (evs : list (Event Point)) : list (Event Point) :=
  filter
    (fun e =>
       match e with
       | EvLog msg => String.eqb msg "Failed to read UDP message"
       | _ => false
       end) evs.

(** A payload of a successful read fits the read buffer. *)
Definition payload_fits (m : Machine Point World) (p : readpayload) : Prop :=
  err p = None -> 0 <= nbytes p <= Z.of_nat (List.length (buf m)).

(** The read buffer keeps its size, what is read fits it, and neither the
    relay channel nor a payload in it outgrows its bound. *)
Definition InvBuf (m : Machine Point World) : Prop :=
  match serve_pc m, reader_pc m with
  | ServeIdle, ReaderIdle => True
  | _, _ => List.length (buf m) = Z.to_nat MaxUDPPayload
  end /\
  match reader_pc m with
  | ReaderHandoff p => payload_fits m p
  | _ => True
  end /\
  match serve_pc m with
  | ServePayload p => payload_fits m p
  | ServeSend bufCopy => Z.of_nat (List.length bufCopy) <= MaxUDPPayload
  | _ => True
  end /\
  Forall (fun b => Z.of_nat (List.length b) <= MaxUDPPayload)
    (parserChan (svc m)) /\
  (List.length (parserChan (svc m)) <= parserChanLen)%nat.

(** A stage that has returned. *)
Definition some_stage_returned (m : Machine Point World) : Prop :=
  serve_pc m = ServeReturned \/ parser_pc m = ParserReturned \/
  writer_pc m = WriterReturned.

(** Whether [RunWithReady] gets past all its checks and calls: both names
    are set, the address resolves, the socket binds and, when a read
    buffer size is configured, setting it works. *)
Definition starts (cfg : Config) (resolve : UDPAddr + error)
    (listen setbuf : option error) : bool :=
  negb (String.eqb (BindAddress cfg) EmptyString)
  && negb (String.eqb (Database cfg) EmptyString)
  && match resolve with inl _ => true | inr _ => false end
  && match listen with None => true | Some _ => false end
  && ((ReadBuffer cfg =? 0)
      || match setbuf with None => true | Some _ => false end).

(** ** Moves that happen

    A schedule entry counts when its move is enabled in the machine it
    meets along the run. *)

Definition enabled (a : Action Point) (m : Machine Point World) : bool :=
  match step ParsePointsWithPrecision a m with
  | Some _ => true
  | None => false
  end.

(** The number of entries of [acts] that satisfy [p] in the machine they
    meet, in the run from [m]. *)
Fixpoint count_moves (p : Action Point -> Machine Point World -> bool)
    (acts : list (Action Point)) (m : Machine Point World) : nat :=
  match acts with
  | [] => 0
  | a :: rest =>
      ((if p a m then 1 else 0)
       + count_moves p rest (fst (exec ParsePointsWithPrecision a m)))%nat
  end.

(** A batch that the writer receives from the batcher, and one that it
    receives while ReadyState is false. *)
Definition batch_received (a : Action Point) (m : Machine Point World)
  : bool :=
  is_writer_recv a && enabled a m.

Definition batch_received_unready (a : Action Point)
    (m : Machine Point World) : bool :=
  batch_received a m && negb (ready (svc m)).

(** What a successful [ReadFromUDP] leaves at the head of the buffer: the
    datagram, cut to the buffer's length.  Nothing for a failed read or
    for any other entry. *)
Definition datagram_read (a : Action Point) (m : Machine Point World)
  : list bytes :=
  match a with
  | AReadFromUDP (inl data) =>
      if enabled a m then [firstn (List.length (buf m)) data] else []
  | _ => []
  end.

(** The datagrams read in the run of [acts] from [m], in order. *)
Fixpoint datagrams_read (acts : list (Action Point))
    (m : Machine Point World) : list bytes :=
  match acts with
  | [] => []
  | a :: rest =>
      datagram_read a m
      ++ datagrams_read rest (fst (exec ParsePointsWithPrecision a m))
  end.

(** The byte count of a payload of a successful read. *)
Definition payload_bytes (p : readpayload) : Z :=
  match err p with
  | None => nbytes p
  | Some _ => 0
  end.

(** Bytes read and not yet counted: of the payload the read loop is
    waiting to hand over, and of the payload the listener has received and
    not yet handled. *)
Definition uncounted (m : Machine Point World) : Z :=
  match reader_pc m with
  | ReaderHandoff p => payload_bytes p
  | _ => 0
  end
  + match serve_pc m with
    | ServePayload p => payload_bytes p
    | _ => 0
    end.

End Accounting.

(** ** Open and Close

    The caller of [Open] and [Close] around the machine.  [Open] makes a
    context and a ready channel of its own, starts a goroutine that runs
    [RunWithReady] and sends its result on the unbuffered [errChan], and
    waits for the ready channel; [Close] cancels the context and receives
    from [errChan].  The context is the service's own, so only [Close]
    cancels it. *)

Section Lifecycle.

Variable Point : Type.
Variable World : Type.
Variable ParsePointsWithPrecision :
  bytes -> Instant -> string -> list Point * option error.

(** The caller: before [Open], blocked in [<-ready], back from [Open],
    blocked in [<-s.errChan], back from [Close] with its result. *)
Inductive CallerPC : Type :=
| CallerIdle
| OpenWait
| Opened
| CloseWait
| Closed (r : option error).

Record Harness : Type := mkHarness {
  machine : Machine Point World;
  caller : CallerPC
}.

(** The caller's moves, and the moves of the goroutines. *)
Inductive OAction : Type :=
| OOpen
| OOpenReturn
| OClose
| OCloseReturn
| OGo (a : Action Point).

Definition HOutcome : Type := (Harness * list (Event Point))%type.

(** [Open] up to [<-ready]. *)
Definition Open (h : Harness) : option HOutcome :=
  match caller h with
  | CallerIdle =>
      Some (mkHarness
              (set_ready_closed false (set_ctx_done false (machine h)))
              OpenWait, [])
  | _ => None
  end.

(** [<-ready; return nil] *)
Definition Open_return (h : Harness) : option HOutcome :=
  match caller h with
  | OpenWait =>
      if ready_closed (machine h) then Some (mkHarness (machine h) Opened, [])
      else None
  | _ => None
  end.

(** [Close] up to [<-s.errChan], called once [Open] has returned. *)
Definition Close (h : Harness) : option HOutcome :=
  match caller h with
  | Opened => Some (mkHarness (set_ctx_done true (machine h)) CloseWait, [])
  | _ => None
  end.

(** [return <-s.errChan]: the rendezvous with the goroutine of [Open],
    which sends what [RunWithReady] returned. *)
Definition Close_return (h : Harness) : option HOutcome :=
  match caller h, main_pc (machine h) with
  | CloseWait, MainReturned r => Some (mkHarness (machine h) (Closed r), [])
  | _, _ => None
  end.

(** A goroutine's move: [RunWithReady] runs in the goroutine that [Open]
    starts, and nobody but [Close] cancels the context. *)
Definition go (a : Action Point) (h : Harness) : option HOutcome :=
  let moved :=
    match step ParsePointsWithPrecision a (machine h) with
    | Some (m, evs) => Some (mkHarness m (caller h), evs)
    | None => None
    end in
  match a with
  | ACancel => None
  | ARunWithReady _ _ _ =>
      match caller h with
      | CallerIdle => None
      | _ => moved
      end
  | _ => moved
  end.

Definition ostep (a : OAction) (h : Harness) : option HOutcome :=
  match a with
  | OOpen => Open h
  | OOpenReturn => Open_return h
  | OClose => Close h
  | OCloseReturn => Close_return h
  | OGo a => go a h
  end.

Definition oexec (a : OAction) (h : Harness) : HOutcome :=
  match ostep a h with
  | Some r => r
  | None => (h, [])
  end.

Fixpoint orun (acts : list OAction) (h : Harness) : HOutcome :=
  match acts with
  | [] => (h, [])
  | a :: rest =>
      let '(h1, e1) := oexec a h in
      let '(h2, e2) := orun rest h1 in
      (h2, e1 ++ e2)
  end.

(** A service as [NewService] makes it, before [Open]. *)
Definition fresh (s : Service Point World) (w : World) : Harness :=
  mkHarness (boot s w) CallerIdle.

(** A start in the schedule that would get past all checks. *)
Definition good_start (cfg : Config) (a : OAction) : bool :=
  match a with
  | OGo (ARunWithReady resolve listen setbuf) =>
      starts cfg resolve listen setbuf
  | _ => false
  end.

(** What holds of every harness reachable from [fresh]. *)
Definition HInv (h : Harness) : Prop :=
  Inv (machine h) /\
  (some_stage_returned (machine h) -> ctx_done (machine h) = true) /\
  match caller h with
  | CallerIdle => main_pc (machine h) = MainIdle
  | OpenWait => ctx_done (machine h) = false
  | Opened => ready_closed (machine h) = true /\ ctx_done (machine h) = false
  | CloseWait => ready_closed (machine h) = true /\ ctx_done (machine h) = true
  | Closed r =>
      ready_closed (machine h) = true /\ ctx_done (machine h) = true /\
      main_pc (machine h) = MainReturned r
  end.

End Lifecycle.


Arguments OOpen {Point}.
Arguments OOpenReturn {Point}.
Arguments OClose {Point}.
Arguments OCloseReturn {Point}.

(** ** Shutdown schedules *)

Section Shutdown.
Variable Point : Type.

(** Cancellation, then what is left for the listener to do with a payload
    it holds, then each stage's cancellation branch and the supervisor's
    return. *)
Definition wind_down : list (Action Point) :=
  [ACancel; AServeHandle; AServeSend; AServeDone; AParserDone; AWriterDone;
   AWaitReturn].

(** [Close], the same moves of the stages, and the return of [Close]. *)
Definition close_down : list (OAction Point) :=
  OClose :: map (@OGo Point) (tl wind_down) ++ [OCloseReturn].
End Shutdown.
Arguments wind_down {Point}.
Arguments close_down {Point}.

(** ** More scenarios *)

Module Lifecycles.
Import Doubles Scenarios.

(** A configuration that asks for a read buffer of 4096 bytes. *)
Definition cfg_read_buffer : Config :=
  mkConfig ":8089" "udp" "" "n" 5 1 1000000000 4096.

Definition refused : error := "operation not permitted"%string.

(** The buffer size is refused, then cancellation and every return are
    scheduled. *)
Definition after_refusal : list (Action TPoint) :=
  [ACancel; AServeDone; AParserDone; AWriterDone; AWaitReturn].

(** [Open], a start on a name that does not resolve, and every move of
    the caller after it. *)
Definition unresolved : error := "no such host"%string.

Definition failing_open : list (OAction TPoint) :=
  [OOpen; OGo (ARunWithReady (inr unresolved) None None); OOpenReturn;
   OClose; OCloseReturn].

(** [Open] and one datagram relayed; then [Close]. *)
Definition open_relay : list (OAction TPoint) :=
  [OOpen; OGo start; OOpenReturn; OGo (AReadFromUDP (inl [x01; x02]));
   OGo AServeRecv; OGo AServeHandle; OGo AServeSend].

Definition open_close : list (OAction TPoint) := open_relay ++ close_down.

(** Two datagrams of two bytes, the second read before the listener has
    copied the first; the parser takes and sends whatever is relayed. *)
Definition take_two : list (Action TPoint) :=
  [AParserRecv 5; AParserSend; AParserSend; AParserCount].

Definition overtaken : list (Action TPoint) :=
  start :: read_overtakes_copy [x01; x02] [x09; x09] ++ take_two
    ++ [AServeRecv; AServeHandle; AServeSend] ++ take_two.

(** A datagram is read, and the context is cancelled before the listener
    receives the payload. *)
Definition stranded_read : list (Action TPoint) :=
  [start; AReadFromUDP (inl [x01; x02]); ACancel; AServeDone; AParserDone;
   AWriterDone; AWaitReturn].

End Lifecycles.


(** ** Case analysis of a step *)

(** The read buffer's size is a number to reason about, not to unfold. *)
Opaque MaxUDPPayload.

Ltac unfold_in E :=
  unfold exec, step, serve, parser, writer, RunWithReady, launch,
    wait_return, read_from_udp, serve_done, serve_recv, serve_handle, serve_send, parser_done,
    parser_recv, parser_send, parser_count, writer_done, writer_recv,
    writer_batch, createInternalStorage, returns, wg_Done, update_stats in E.

(** Split on the scrutinees of [E], innermost first. *)
Ltac break_in E :=
  repeat match type of E with
  | context [match ?x with _ => _ end] =>
      lazymatch x with
      | context [match _ with _ => _ end] => fail
      | _ => destruct x eqn:?; simpl in E
      end
  end.

(** From [E : exec a m = (m', evs)] with [a] and [m] given by constructors,
    one goal per way the step can go, with [m'] and [evs] spelled out. *)
Ltac step_cases E :=
  unfold_in E; simpl in E; break_in E; inversion E; subst; clear E.

Ltac split_pcs :=
  repeat match goal with
  | x : MainPC |- _ => destruct x as [| |[]]
  | x : ServePC |- _ => destruct x
  | x : ParserPC _ |- _ => destruct x
  | x : WriterPC |- _ => destruct x
  end.

Ltac split_ands :=
  repeat match goal with
  | H : _ /\ _ |- _ => destruct H
  | H : exists _, _ |- _ => destruct H
  end.

(** From [E : oexec a h = (h', evs)], one goal per way the move can go. *)
Ltac ostep_cases E :=
  unfold oexec, ostep, Open, Open_return, Close, Close_return, go in E;
  simpl in E; break_in E; inversion E; subst; clear E.

(** * Properties *)

(** ** int64 arithmetic *)

Lemma wrap_in_range (z : Z) : Int64.in_range z -> Int64.wrap z = z.
Proof.
  unfold Int64.in_range, Int64.min, Int64.max, Int64.wrap. intros H.
  rewrite Z.mod_small; lia.
Qed.

Lemma AddInt64_exact (v d : Z) : Int64.in_range (v + d) -> AddInt64 v d = v + d.
Proof. apply wrap_in_range. Qed.

Section Properties.

Variable Point : Type.
Variable World : Type.
Variable Parse : bytes -> Instant -> string -> list Point * option error.

Local Abbreviation Machine := (Machine Point World).
Local Abbreviation exec := (@exec Point World Parse).
Local Abbreviation step := (@step Point World Parse).
Local Abbreviation run := (@run Point World Parse).
Local Abbreviation decoded := (@decoded Point Parse).

(** ** Reachable machines *)

Lemma Inv_boot (s : Service Point World) (w : World) :
  wg s = 0%nat -> Inv (boot s w).
Proof. intros H. unfold Inv, stages_idle, conn_state; simpl. repeat split; auto. Qed.

Lemma Inv_exec (a : Action Point) (m m' : Machine) (evs : list (Event Point)) :
  exec a m = (m', evs) -> Inv m -> Inv m'.
Proof.
  intros E H. destruct m as [s w cd rc bf mp sp rp pp wp].
  destruct a; step_cases E;
    unfold Inv, stages_idle, stages_returned, serve_alive, parser_alive,
      writer_alive, conn_state in *; simpl in *;
    split_pcs; simpl in *; split_ands; try discriminate; subst; simpl in *;
    repeat split; eauto; try congruence; try lia;
    match goal with
    | H : conn _ = Some _ |- _ => rewrite H; simpl; eauto
    end.
Qed.

Lemma run_cons (a : Action Point) (acts : list (Action Point)) (m : Machine) :
  run (a :: acts) m =
  (fst (run acts (fst (exec a m))),
   snd (exec a m) ++ snd (run acts (fst (exec a m)))).
Proof.
  simpl. destruct (exec a m) as [m1 e1]. simpl.
  destruct (run acts m1) as [m2 e2]. reflexivity.
Qed.

Lemma run_app (a1 a2 : list (Action Point)) (m : Machine) :
  run (a1 ++ a2) m =
  (fst (run a2 (fst (run a1 m))),
   snd (run a1 m) ++ snd (run a2 (fst (run a1 m)))).
Proof.
  revert m. induction a1 as [|a a1 IH]; intros m.
  - simpl. now destruct (run a2 m).
  - rewrite <- app_comm_cons, !run_cons, IH. simpl. now rewrite app_assoc.
Qed.

Lemma Inv_run (acts : list (Action Point)) (m : Machine) :
  Inv m -> Inv (fst (run acts m)).
Proof.
  revert m. induction acts as [|a acts IH]; intros m H; [exact H|].
  rewrite run_cons. simpl. apply IH.
  destruct (exec a m) as [m1 e1] eqn:E. simpl. eapply Inv_exec; eauto.
Qed.

(** ** Events of a run *)

Lemma batcher_in_app (e1 e2 : list (Event Point)) :
  batcher_in (e1 ++ e2) = batcher_in e1 ++ batcher_in e2.
Proof. apply flat_map_app. Qed.

Lemma relayed_app (e1 e2 : list (Event Point)) :
  relayed (e1 ++ e2) = relayed e1 ++ relayed e2.
Proof. apply flat_map_app. Qed.

Lemma parsed_app (e1 e2 : list (Event Point)) :
  parsed (e1 ++ e2) = parsed e1 ++ parsed e2.
Proof. apply flat_map_app. Qed.

Lemma creates_app (e1 e2 : list (Event Point)) :
  creates (e1 ++ e2) = creates e1 ++ creates e2.
Proof. apply flat_map_app. Qed.

Lemma writes_app (e1 e2 : list (Event Point)) :
  writes (e1 ++ e2) = writes e1 ++ writes e2.
Proof. apply flat_map_app. Qed.

(** ** The parser among the other goroutines *)

Lemma parser_kept_refl (m : Machine) : main_pc m <> MainIdle -> parser_kept m m.
Proof.
  intros H. unfold parser_kept. repeat split; auto.
  exists []. now rewrite app_nil_r.
Qed.

Lemma parser_kept_trans (m1 m2 m3 : Machine) :
  parser_kept m1 m2 -> parser_kept m2 m3 -> parser_kept m1 m3.
Proof.
  unfold parser_kept.
  intros (Hpc & Hr & Hf & Hc & [x Hx] & _) (Hpc' & Hr' & Hf' & Hc' & [y Hy] & Hm).
  repeat split; try congruence.
  exists (x ++ y). now rewrite Hy, Hx, app_assoc.
Qed.

(** A move of another goroutine leaves the parser's share alone and sends
    nothing into the batcher. *)
Lemma others_keep_parser (a : Action Point) (m m' : Machine)
    (evs : list (Event Point)) :
  parser_action a = false -> main_pc m <> MainIdle ->
  exec a m = (m', evs) ->
  parser_kept m m' /\ batcher_in evs = [] /\ parsed evs = [].
Proof.
  intros Ha Hm E. destruct m as [s w cd rc bf mp sp rp pp wp].
  simpl in Hm.
  destruct a; try discriminate Ha; step_cases E;
    unfold parser_kept; simpl;
    try (repeat split; auto; try congruence;
         first [ exists []; now rewrite app_nil_r | eexists; reflexivity ]).

Qed.

Lemma others_run_keep_parser (acts : list (Action Point)) (m m' : Machine)
    (evs : list (Event Point)) :
  filter (@parser_action Point) acts = [] -> main_pc m <> MainIdle ->
  run acts m = (m', evs) ->
  parser_kept m m' /\ batcher_in evs = [] /\ parsed evs = [].
Proof.
  revert m m' evs. induction acts as [|a acts IH]; intros m m' evs Hf Hm E.
  - inversion E; subst. split; [now apply parser_kept_refl | auto].
  - simpl in Hf. destruct (parser_action a) eqn:Ha; [discriminate|].
    rewrite run_cons in E. destruct (exec a m) as [m1 e1] eqn:E1.
    destruct (@others_keep_parser a m _ _ Ha Hm E1) as (K1 & B1 & P1).
    simpl in E. destruct (run acts m1) as [m2 e2] eqn:E2.
    inversion E; subst.
    assert (Hm1 : main_pc m1 <> MainIdle) by apply K1.
    destruct (IH m1 m' e2 Hf Hm1 E2) as (K2 & B2 & P2).
    split; [eapply parser_kept_trans; eauto|].
    now rewrite batcher_in_app, parsed_app, B1, B2, P1, P2.
Qed.

Lemma exec_parser_send (m : Machine) (points todo : list Point) (p : Point) :
  parser_pc m = ParserRange points (p :: todo) ->
  exec AParserSend m =
  (set_parser_pc (ParserRange points todo) m, [EvBatcherIn p]).
Proof. intros H. unfold exec, step, parser, parser_send. now rewrite H. Qed.

Lemma exec_parser_count (m : Machine) (points : list Point) :
  parser_pc m = ParserRange points [] ->
  exec AParserCount m =
  (set_parser_pc ParserSelect
     (update_stats (addPointsReceived (Z.of_nat (List.length points))) m), []).
Proof. intros H. unfold exec, step, parser, parser_count. now rewrite H. Qed.

Lemma step_parser_recv (m : Machine) (now : Instant) (b : bytes)
    (q : list bytes) :
  parser_pc m = ParserSelect -> parserChan (svc m) = b :: q ->
  step (AParserRecv now) m =
  Some
    (let m1 := set_svc (set_parserChan q (svc m)) m in
     match Parse b now (Precision (config (svc m))) with
     | (_, Some _) =>
         (update_stats (addPointsParseFail 1) m1,
          [EvParse b now; EvLog "Failed to parse points"])
     | (points, None) =>
         (set_parser_pc (ParserRange points points) m1, [EvParse b now])
     end).
Proof.
  intros Hpc Hch. unfold step, parser, parser_recv. rewrite Hpc, Hch. simpl.
  destruct (Parse b now (Precision (config (svc m)))) as [pts [e|]];
    reflexivity.
Qed.

(** Inside the range loop: the points still to be sent go out in order,
    then the counter moves, whatever the other goroutines do meanwhile. *)
Lemma parser_range_phase (acts : list (Action Point)) (m m' : Machine)
    (evs : list (Event Point)) (points todo : list Point) :
  main_pc m <> MainIdle ->
  parser_pc m = ParserRange points todo ->
  filter (@parser_action Point) acts =
    repeat AParserSend (List.length todo) ++ [AParserCount] ->
  run acts m = (m', evs) ->
  parsed evs = [] /\ batcher_in evs = todo /\
  PointsReceived (stats (svc m')) =
    AddInt64 (PointsReceived (stats (svc m))) (Z.of_nat (List.length points)) /\
  PointsParseFail (stats (svc m')) = PointsParseFail (stats (svc m)) /\
  parser_pc m' = ParserSelect.
Proof.
  revert m m' evs todo.
  induction acts as [|a acts IH]; intros m m' evs todo Hm Hpc Hf E.
  - simpl in Hf. symmetry in Hf. now apply app_eq_nil in Hf.
  - rewrite run_cons in E. destruct (exec a m) as [m1 e1] eqn:E1.
    simpl in E. destruct (run acts m1) as [m2 e2] eqn:E2.
    inversion E; subst; clear E.
    simpl in Hf. destruct (parser_action a) eqn:Ha.
    + destruct todo as [|p todo]; simpl in Hf; inversion Hf; subst.
      * rewrite (@exec_parser_count m _ Hpc) in E1. inversion E1; subst.
        assert (Hm1 : main_pc
                  (set_parser_pc ParserSelect
                     (update_stats
                        (addPointsReceived (Z.of_nat (List.length points))) m))
                <> MainIdle) by exact Hm.
        destruct (@others_run_keep_parser acts _ _ _ H1 Hm1 E2)
          as ((Kpc & Kr & Kf & _) & B & P).
        simpl in *. repeat split; auto; congruence.
      * rewrite (@exec_parser_send m _ _ _ Hpc) in E1. inversion E1; subst.
        destruct (IH (set_parser_pc (ParserRange points todo) m) _ _ todo Hm eq_refl H1 E2)
          as (P & B & R & F & Pc).
        simpl in *. repeat split; auto; congruence.
    + destruct (@others_keep_parser a m _ _ Ha Hm E1)
        as ((Kpc & Kr & Kf & _ & _ & Km) & B1 & P1).
      assert (Hpc1 : parser_pc m1 = ParserRange points todo) by congruence.
      destruct (IH _ _ _ todo Km Hpc1 Hf E2) as (P & B & R & F & Pc).
      rewrite parsed_app, batcher_in_app, P1, B1. simpl.
      repeat split; auto; congruence.
Qed.

Lemma parser_recv_phase (acts : list (Action Point)) (m m' : Machine)
    (evs : list (Event Point)) (b : bytes) (q : list bytes) (now : Instant)
    (points : list Point) :
  main_pc m <> MainIdle ->
  parser_pc m = ParserSelect ->
  parserChan (svc m) = b :: q ->
  Parse b now (Precision (config (svc m))) = (points, None) ->
  filter (@parser_action Point) acts =
    AParserRecv now :: repeat AParserSend (List.length points) ++ [AParserCount] ->
  run acts m = (m', evs) ->
  parsed evs = [(b, now)] /\ batcher_in evs = points /\
  PointsReceived (stats (svc m')) =
    AddInt64 (PointsReceived (stats (svc m))) (Z.of_nat (List.length points)) /\
  PointsParseFail (stats (svc m')) = PointsParseFail (stats (svc m)) /\
  parser_pc m' = ParserSelect.
Proof.
  revert m m' evs q.
  induction acts as [|a acts IH]; intros m m' evs q Hm Hpc Hch Hp Hf E.
  - discriminate Hf.
  - rewrite run_cons in E. destruct (exec a m) as [m1 e1] eqn:E1.
    simpl in E. destruct (run acts m1) as [m2 e2] eqn:E2.
    inversion E; subst; clear E.
    simpl in Hf. destruct (parser_action a) eqn:Ha.
    + inversion Hf; subst.
      unfold exec in E1. rewrite (@step_parser_recv m now b q Hpc Hch) in E1.
      rewrite Hp in E1. simpl in E1. inversion E1; subst; clear E1.
      eapply parser_range_phase in E2; [| exact Hm | reflexivity | exact H1].
      destruct E2 as (P & B & R & F & Pc).
      simpl in *. rewrite P, B. repeat split; auto.
    + destruct (@others_keep_parser a m _ _ Ha Hm E1)
        as ((Kpc & Kr & Kf & Kc & [ext Kx] & Km) & B1 & P1).
      assert (Hpc1 : parser_pc m1 = ParserSelect) by congruence.
      assert (Hch1 : parserChan (svc m1) = b :: (q ++ ext))
        by (rewrite Kx, Hch; reflexivity).
      rewrite <- Kc in Hp.
      destruct (IH _ _ _ _ Km Hpc1 Hch1 Hp Hf E2) as (P & B & R & F & Pc).
      rewrite parsed_app, batcher_in_app, P1, B1. simpl.
      repeat split; auto; congruence.
Qed.

Lemma parser_reject_phase (acts : list (Action Point)) (m m' : Machine)
    (evs : list (Event Point)) (b : bytes) (q : list bytes) (now : Instant)
    (partial : list Point) (e : error) :
  main_pc m <> MainIdle ->
  parser_pc m = ParserSelect ->
  parserChan (svc m) = b :: q ->
  Parse b now (Precision (config (svc m))) = (partial, Some e) ->
  filter (@parser_action Point) acts = [AParserRecv now] ->
  run acts m = (m', evs) ->
  parsed evs = [(b, now)] /\ batcher_in evs = [] /\
  PointsReceived (stats (svc m')) = PointsReceived (stats (svc m)) /\
  PointsParseFail (stats (svc m')) =
    AddInt64 (PointsParseFail (stats (svc m))) 1 /\
  parser_pc m' = ParserSelect.
Proof.
  revert m m' evs q.
  induction acts as [|a acts IH]; intros m m' evs q Hm Hpc Hch Hp Hf E.
  - discriminate Hf.
  - rewrite run_cons in E. destruct (exec a m) as [m1 e1] eqn:E1.
    simpl in E. destruct (run acts m1) as [m2 e2] eqn:E2.
    inversion E; subst; clear E.
    simpl in Hf. destruct (parser_action a) eqn:Ha.
    + inversion Hf; subst.
      unfold exec in E1. rewrite (@step_parser_recv m now b q Hpc Hch) in E1.
      rewrite Hp in E1. simpl in E1. inversion E1; subst; clear E1.
      eapply others_run_keep_parser in E2; [| exact H1 | exact Hm].
      destruct E2 as ((Kpc & Kr & Kf & _) & B & P).
      simpl in *. rewrite P, B. repeat split; auto; congruence.
    + destruct (@others_keep_parser a m _ _ Ha Hm E1)
        as ((Kpc & Kr & Kf & Kc & [ext Kx] & Km) & B1 & P1).
      assert (Hpc1 : parser_pc m1 = ParserSelect) by congruence.
      assert (Hch1 : parserChan (svc m1) = b :: (q ++ ext))
        by (rewrite Kx, Hch; reflexivity).
      rewrite <- Kc in Hp.
      destruct (IH _ _ _ _ Km Hpc1 Hch1 Hp Hf E2) as (P & B & R & F & Pc).
      rewrite parsed_app, batcher_in_app, P1, B1. simpl.
      repeat split; auto; congruence.
Qed.

(** C1.  A payload [b] at the head of the relay channel that decodes
    without error into [points]: in every schedule in which the parser
    takes it, sends once per point and counts, whatever the other
    goroutines do in between, exactly [points] go into the batcher's
    input, in order, and PointsReceived has then grown by their number (an
    int64 addition; the plain sum when it is in range).  The count is not
    enabled while a point is still to be sent.  When the decoder reports
    an error, however many points it returns beside it, PointsReceived is
    unchanged and nothing goes into the batcher. *)
Theorem parser_forwards_then_counts (m : Machine) (b : bytes)
    (q : list bytes) (now : Instant) :
  main_pc m <> MainIdle ->
  parser_pc m = ParserSelect ->
  parserChan (svc m) = b :: q ->
  (forall points acts m' evs,
      Parse b now (Precision (config (svc m))) = (points, None) ->
      filter (@parser_action Point) acts =
        AParserRecv now :: repeat AParserSend (List.length points)
          ++ [AParserCount] ->
      run acts m = (m', evs) ->
      let k := Z.of_nat (List.length points) in
      let received := PointsReceived (stats (svc m)) in
      parsed evs = [(b, now)] /\
      batcher_in evs = points /\
      PointsReceived (stats (svc m')) = AddInt64 received k /\
      (Int64.in_range (received + k) ->
       PointsReceived (stats (svc m')) = received + k) /\
      PointsParseFail (stats (svc m')) = PointsParseFail (stats (svc m)) /\
      parser_pc m' = ParserSelect) /\
  (forall (m1 : Machine) points p todo,
      parser_pc m1 = ParserRange points (p :: todo) ->
      step AParserCount m1 = None) /\
  (forall partial e acts m' evs,
      Parse b now (Precision (config (svc m))) = (partial, Some e) ->
      filter (@parser_action Point) acts = [AParserRecv now] ->
      run acts m = (m', evs) ->
      batcher_in evs = [] /\
      PointsReceived (stats (svc m')) = PointsReceived (stats (svc m)) /\
      parser_pc m' = ParserSelect).
Proof.
  intros Hm Hpc Hch. split; [|split].
  - intros points acts m' evs Hp Hf E k received.
    destruct (@parser_recv_phase acts m m' evs b q now points Hm Hpc Hch Hp Hf E)
      as (P & B & R & F & Pc).
    repeat split; auto.
    intros Hr. subst k received. rewrite R. now apply AddInt64_exact.
  - intros m1 points p todo H. unfold step, parser, parser_count. now rewrite H.
  - intros partial e acts m' evs Hp Hf E.
    destruct (@parser_reject_phase acts m m' evs b q now partial e Hm Hpc Hch Hp Hf E)
      as (P & B & R & F & Pc).
    auto.
Qed.

(** C2.  A payload [b] at the head of the relay channel that the decoder
    rejects: the parser's step on it logs, adds one to PointsParseFail (an
    int64 addition; plus one when in range), leaves every other counter
    alone, sends nothing into the batcher, calls no collaborator, and is
    back at its select with the rest of the channel; the machine it leaves
    does not depend on the points the decoder returned beside the error. *)
Theorem parser_rejects_malformed (m : Machine) (b : bytes) (q : list bytes)
    (now : Instant) (partial : list Point) (e : error) :
  parser_pc m = ParserSelect ->
  parserChan (svc m) = b :: q ->
  Parse b now (Precision (config (svc m))) = (partial, Some e) ->
  let m' :=
    update_stats (addPointsParseFail 1) (set_svc (set_parserChan q (svc m)) m) in
  let evs := [EvParse b now; EvLog "Failed to parse points"] in
  let failed := PointsParseFail (stats (svc m)) in
  step (AParserRecv now) m = Some (m', evs) /\
  PointsParseFail (stats (svc m')) = AddInt64 failed 1 /\
  (Int64.in_range (failed + 1) ->
   PointsParseFail (stats (svc m')) = failed + 1) /\
  PointsReceived (stats (svc m')) = PointsReceived (stats (svc m)) /\
  BytesReceived (stats (svc m')) = BytesReceived (stats (svc m)) /\
  ReadFail (stats (svc m')) = ReadFail (stats (svc m)) /\
  delivery_counters (stats (svc m')) = delivery_counters (stats (svc m)) /\
  batcher_in evs = [] /\ writes evs = [] /\ creates evs = [] /\
  world m' = world m /\
  pending m' = [] /\
  parser_pc m' = ParserSelect /\
  parserChan (svc m') = q.
Proof.
  intros Hpc Hch Hp m' evs failed.
  split.
  - rewrite (@step_parser_recv m now b q Hpc Hch), Hp. reflexivity.
  - subst m' evs failed. unfold pending. simpl. rewrite Hpc.
    repeat split; auto. intros Hr. now apply AddInt64_exact.
Qed.

(** ** The writer *)

Lemma step_writer_recv (m : Machine) (batch : list Point) :
  writer_pc m = WriterSelect ->
  step (AWriterRecv batch) m = Some (writer_batch batch m).
Proof. intros H. unfold step, writer, writer_recv. now rewrite H. Qed.

(** [createInternalStorage] returning nil: the machine is ready afterwards
    and differs from the one before at most by ReadyState and the world; it
    made no call when ReadyState was already set, one successful creation
    call otherwise. *)
Lemma createInternalStorage_nil (m m1 : Machine) (evs1 : list (Event Point)) :
  createInternalStorage m = (None, m1, evs1) ->
  ready (svc m1) = true /\
  m1 = set_svc (set_ready true (svc m)) (set_world (world m1) m) /\
  writes evs1 = [] /\
  (ready (svc m) = true -> world m1 = world m /\ evs1 = []) /\
  (ready (svc m) = false -> creates evs1 = [None]).
Proof.
  unfold createInternalStorage. intros H.
  destruct m as [s w cd rc bf mp sp rp pp wp]. simpl in *.
  destruct (ready s) eqn:Hr.
  - inversion H; subst. simpl. repeat split; auto; try discriminate.
    destruct s; simpl in *; subst; reflexivity.
  - destruct (CreateDatabase _ _ _) as [[e|] w1]; inversion H; subst.
    simpl. repeat split; auto; discriminate.
Qed.

Lemma writer_batch_ready (m m1 : Machine) (evs1 : list (Event Point))
    (batch : list Point) :
  createInternalStorage m = (None, m1, evs1) ->
  writer_batch batch m =
  (let s := svc m1 in
   let db := Database (config s) in
   let rp := RetentionPolicy (config s) in
   let rw :=
     WritePointsPrivileged (PointsWriter s) db rp ConsistencyLevelAny batch
       (world m1) in
   let ev := EvWritePoints db rp ConsistencyLevelAny batch (fst rw) in
   match fst rw with
   | None =>
       (update_stats (addPointsTransmitted (Z.of_nat (List.length batch)))
          (update_stats (addBatchesTransmitted 1) (set_world (snd rw) m1)),
        evs1 ++ [ev])
   | Some _ =>
       (update_stats (addBatchesTransmitFail 1) (set_world (snd rw) m1),
        evs1 ++ [ev; EvLog "Failed to write point batch to database"])
   end).
Proof.
  intros H. unfold writer_batch. rewrite H. simpl.
  destruct (WritePointsPrivileged _ _ _ _ _ _) as [[e|] w]; reflexivity.
Qed.

Lemma writer_batch_create_fails (m : Machine) (batch : list Point)
    (e : error) (w : World) :
  ready (svc m) = false ->
  CreateDatabase (MetaClient (svc m)) (Database (config (svc m))) (world m) =
    (Some e, w) ->
  writer_batch batch m =
  (set_world w m,
   [EvCreateDatabase (Database (config (svc m))) (Some e);
    EvLog "Required database does not yet exist"]).
Proof.
  intros H C. unfold writer_batch, createInternalStorage. rewrite H, C.
  reflexivity.
Qed.

(** C3.  A batch for which [createInternalStorage] returns nil, so that
    ReadyState is established when the write is made (it was set already,
    or the creation call just succeeded): the writer's step makes exactly
    one write call, for that batch.  When the write succeeds
    BatchesTransmitted grows by one and PointsTransmitted by the batch's
    length; when it fails BatchesTransmitFail grows by one and the other
    two stay (int64 additions; the plain sums when in range).  Either way
    the other four counters stay, the writer is back at its select, ready,
    keeps nothing of the batch, and its step on the next batch makes no
    creation call and exactly one write call, for that next batch. *)
Theorem writer_delivers_or_drops (m m1 : Machine)
    (evs1 : list (Event Point)) (batch : list Point) :
  writer_pc m = WriterSelect ->
  createInternalStorage m = (None, m1, evs1) ->
  let s := svc m in
  let db := Database (config s) in
  let rp := RetentionPolicy (config s) in
  let write b w :=
    WritePointsPrivileged (PointsWriter s) db rp ConsistencyLevelAny b w in
  let r := fst (write batch (world m1)) in
  let n := Z.of_nat (List.length batch) in
  exists m' evs,
    step (AWriterRecv batch) m = Some (m', evs) /\
    creates evs = creates evs1 /\ writes evs = [(batch, r)] /\
    (r = None ->
     BatchesTransmitted (stats (svc m')) =
       AddInt64 (BatchesTransmitted (stats s)) 1 /\
     PointsTransmitted (stats (svc m')) =
       AddInt64 (PointsTransmitted (stats s)) n /\
     BatchesTransmitFail (stats (svc m')) = BatchesTransmitFail (stats s) /\
     (Int64.in_range (BatchesTransmitted (stats s) + 1) ->
      BatchesTransmitted (stats (svc m')) = BatchesTransmitted (stats s) + 1) /\
     (Int64.in_range (PointsTransmitted (stats s) + n) ->
      PointsTransmitted (stats (svc m')) = PointsTransmitted (stats s) + n)) /\
    (r <> None ->
     BatchesTransmitFail (stats (svc m')) =
       AddInt64 (BatchesTransmitFail (stats s)) 1 /\
     BatchesTransmitted (stats (svc m')) = BatchesTransmitted (stats s) /\
     PointsTransmitted (stats (svc m')) = PointsTransmitted (stats s) /\
     (Int64.in_range (BatchesTransmitFail (stats s) + 1) ->
      BatchesTransmitFail (stats (svc m')) =
        BatchesTransmitFail (stats s) + 1)) /\
    ingest_counters (stats (svc m')) = ingest_counters (stats s) /\
    writer_pc m' = WriterSelect /\
    ready (svc m') = true /\
    world m' = snd (write batch (world m1)) /\
    forall next, exists m'' evs',
      step (AWriterRecv next) m' = Some (m'', evs') /\
      creates evs' = [] /\
      writes evs' = [(next, fst (write next (world m')))].
Proof.
  intros Hpc Hc s db rp write r n.
  assert (Next : forall m2 : Machine,
             writer_pc m2 = WriterSelect -> ready (svc m2) = true ->
             forall b, exists m3 evs3,
               step (AWriterRecv b) m2 = Some (m3, evs3) /\
               creates evs3 = [] /\
               writes evs3 =
                 [(b, fst (WritePointsPrivileged (PointsWriter (svc m2))
                             (Database (config (svc m2)))
                             (RetentionPolicy (config (svc m2)))
                             ConsistencyLevelAny b (world m2)))]).
  { intros m2 H1 H2 b. rewrite (step_writer_recv m2 b H1).
    assert (C2 : createInternalStorage m2 = (None, m2, []))
      by (unfold createInternalStorage; now rewrite H2).
    rewrite (@writer_batch_ready m2 m2 [] b C2). simpl.
    destruct (fst (WritePointsPrivileged _ _ _ _ _ _)); eauto. }
  destruct (createInternalStorage_nil m Hc) as (Hr1 & Hm1 & Hw1 & _ & _).
  rewrite (step_writer_recv m batch Hpc).
  rewrite (@writer_batch_ready m m1 evs1 batch Hc).
  assert (Hp1 : writer_pc m1 = WriterSelect) by (rewrite Hm1; exact Hpc).
  assert (Hs1 : svc m1 = set_ready true s) by (rewrite Hm1; reflexivity).
  assert (Hcfg : config (svc m1) = config s) by (rewrite Hs1; reflexivity).
  assert (Hpw : PointsWriter (svc m1) = PointsWriter s)
    by (rewrite Hs1; reflexivity).
  assert (Hst : stats (svc m1) = stats s) by (rewrite Hs1; reflexivity).
  cbv zeta. rewrite Hcfg, Hpw. fold db rp. fold (write batch (world m1)).
  fold r.
  destruct r as [e|] eqn:Er.
  - eexists; eexists; split; [reflexivity|].
    rewrite creates_app, writes_app, Hw1. simpl. rewrite app_nil_r, Hst.
    split; [reflexivity|]. split; [reflexivity|].
    split; [discriminate|].
    split; [intros _; repeat split; auto; apply AddInt64_exact|].
    repeat split; auto.
    intros next.
    destruct (Next (update_stats (addBatchesTransmitFail 1)
                      (set_world (snd (write batch (world m1))) m1))
                Hp1 Hr1 next) as (m3 & evs3 & S3 & C3 & W3).
    exists m3, evs3. repeat split; auto.
    rewrite W3. simpl. rewrite Hcfg, Hpw. reflexivity.
  - eexists; eexists; split; [reflexivity|].
    rewrite creates_app, writes_app, Hw1. simpl. rewrite app_nil_r, Hst.
    split; [reflexivity|]. split; [reflexivity|].
    split; [intros _; repeat split; auto; apply AddInt64_exact|].
    split; [congruence|].
    repeat split; auto.
    intros next.
    destruct (Next (update_stats (addPointsTransmitted n)
                      (update_stats (addBatchesTransmitted 1)
                         (set_world (snd (write batch (world m1))) m1)))
                Hp1 Hr1 next) as (m3 & evs3 & S3 & C3 & W3).
    exists m3, evs3. repeat split; auto.
    rewrite W3. simpl. rewrite Hcfg, Hpw. reflexivity.
Qed.

(** C4.  With ReadyState false, a batch whose creation call fails: the
    writer's step makes that one creation call and no write call, logs,
    leaves all seven counters and ReadyState as they were, keeps nothing of
    the batch, and is back at its select; its step on the next batch calls
    creation again. *)
Theorem writer_drops_batch_when_creation_fails (m : Machine)
    (batch : list Point) (e : error) (w : World) :
  writer_pc m = WriterSelect ->
  ready (svc m) = false ->
  CreateDatabase (MetaClient (svc m)) (Database (config (svc m))) (world m) =
    (Some e, w) ->
  let db := Database (config (svc m)) in
  let m' := set_world w m in
  let evs :=
    [EvCreateDatabase db (Some e);
     EvLog "Required database does not yet exist"] in
  step (AWriterRecv batch) m = Some (m', evs) /\
  creates evs = [Some e] /\ writes evs = [] /\
  delivery_counters (stats (svc m')) = delivery_counters (stats (svc m)) /\
  stats (svc m') = stats (svc m) /\
  ready (svc m') = false /\
  writer_pc m' = WriterSelect /\
  forall next, exists m'' evs',
    step (AWriterRecv next) m' = Some (m'', evs') /\
    exists rest,
      evs' =
      EvCreateDatabase db (fst (CreateDatabase (MetaClient (svc m)) db w))
        :: rest.
Proof.
  intros Hpc Hr Hc db m' evs.
  rewrite (step_writer_recv m batch Hpc).
  rewrite (@writer_batch_create_fails m batch e w Hr Hc).
  repeat split; auto.
  intros next. rewrite (step_writer_recv m' next Hpc).
  unfold writer_batch, createInternalStorage. subst m'. simpl. rewrite Hr.
  fold db.
  destruct (CreateDatabase (MetaClient (svc m)) db w) as [[e'|] w']; simpl.
  - eauto.
  - destruct (WritePointsPrivileged _ _ _ _ _ _) as [[e'|] w'']; simpl; eauto.
Qed.

(** ** ReadyState *)

(** What one move can do to ReadyState and which creation calls it makes. *)
Lemma exec_ready (a : Action Point) (m m' : Machine)
    (evs : list (Event Point)) :
  exec a m = (m', evs) ->
  (ready (svc m) = true /\ ready (svc m') = true /\ creates evs = []) \/
  (ready (svc m) = false /\ ready (svc m') = false /\ creates evs = []) \/
  (ready (svc m) = false /\ ready (svc m') = false /\
   is_writer_recv a = true /\ exists e, creates evs = [Some e]) \/
  (ready (svc m) = false /\ ready (svc m') = true /\
   is_writer_recv a = true /\ creates evs = [None]).
Proof.
  intros E. destruct m as [s w cd rc bf mp sp rp pp wp].
  destruct a; step_cases E; simpl;
    try (destruct (ready s) eqn:?); simpl;
    first
      [ solve [left; repeat split; auto; congruence]
      | solve [right; left; repeat split; auto; congruence]
      | solve [right; right; left; repeat split; eauto; congruence]
      | solve [right; right; right; repeat split; auto; congruence] ].
Qed.

Lemma ready_stays (acts : list (Action Point)) (m : Machine) :
  ready (svc m) = true ->
  ready (svc (fst (run acts m))) = true /\ creates (snd (run acts m)) = [].
Proof.
  revert m. induction acts as [|a acts IH]; intros m H; [now split|].
  rewrite run_cons. simpl.
  destruct (exec a m) as [m1 e1] eqn:E. simpl.
  destruct (exec_ready a m E)
    as [(_ & H1 & C1) | [(H0 & _) | [(H0 & _) | (H0 & _)]]]; try congruence.
  destruct (IH m1 H1) as (H2 & C2).
  split; [exact H2|]. now rewrite creates_app, C1, C2.
Qed.

(** From a machine that is not ready, the creation calls of a run: errors,
    then one success if and only if the machine ends up ready; never more
    calls than batches received. *)
Lemma run_creates (acts : list (Action Point)) (m : Machine) :
  ready (svc m) = false ->
  exists fails,
    Forall is_error fails /\
    creates (snd (run acts m)) =
      fails ++ (if ready (svc (fst (run acts m))) then [None] else []) /\
    (List.length (creates (snd (run acts m)))
     <= List.length (filter (@is_writer_recv Point) acts))%nat.
Proof.
  revert m. induction acts as [|a acts IH]; intros m H.
  - exists []. simpl. rewrite H. auto.
  - rewrite run_cons. simpl.
    destruct (exec a m) as [m1 e1] eqn:E. simpl.
    rewrite creates_app, length_app.
    destruct (exec_ready a m E)
      as [(H0 & _) | [(_ & H1 & C1) | [(_ & H1 & A & e & C1) | (_ & H1 & A & C1)]]];
      try congruence.
    + destruct (IH m1 H1) as (fails & F & C & L).
      exists fails. rewrite C1. simpl. repeat split; auto.
      destruct (is_writer_recv a); simpl; lia.
    + destruct (IH m1 H1) as (fails & F & C & L).
      exists (Some e :: fails). rewrite C1, A. simpl. rewrite C.
      split; [constructor; [discriminate | exact F]|].
      split; [reflexivity|]. rewrite <- C. lia.
    + destruct (ready_stays acts m1 H1) as (H2 & C2).
      exists []. rewrite C1, C2, H2, A. simpl. repeat split; auto. lia.
Qed.

(** A creation call that succeeds is made while ReadyState is false and
    sets it. *)
Lemma success_sets_ready (a : Action Point) (m : Machine) :
  In None (creates (snd (exec a m))) ->
  ready (svc m) = false /\ ready (svc (fst (exec a m))) = true /\
  creates (snd (exec a m)) = [None].
Proof.
  intros H. destruct (exec a m) as [m1 e1] eqn:E. simpl in *.
  destruct (exec_ready a m E)
    as [(_ & _ & C) | [(_ & _ & C) | [(_ & _ & _ & e & C) | (? & ? & _ & C)]]];
    [rewrite C in H; destruct H
    |rewrite C in H; destruct H
    |rewrite C in H; destruct H as [H|[]]; discriminate H
    |auto].
Qed.

(** After a run that made a successful creation call ReadyState is true. *)
Lemma ready_after_success (acts : list (Action Point)) (m : Machine) :
  In None (creates (snd (run acts m))) ->
  ready (svc (fst (run acts m))) = true.
Proof.
  revert m. induction acts as [|a acts IH]; intros m H; [destruct H|].
  rewrite run_cons in *. simpl in *.
  rewrite creates_app in H. apply in_app_or in H. destruct H as [H|H].
  - destruct (success_sets_ready a m H) as (_ & R & _).
    now apply ready_stays.
  - now apply IH.
Qed.

(** C5.  ReadyState starts false; once true it stays true through every
    schedule and no creation call is made any more; a move takes it from
    false to true only by making one creation call, which succeeded; a
    move whose creation call fails leaves it false; a move whose creation
    call succeeds sets it; and after a run in which a creation call has
    succeeded it is true, and stays true with no creation call made in
    any continuation, however many batches arrive. *)
Theorem ready_is_monotone :
  (forall d pw mc, ready (NewService d pw mc : Service Point World) = false) /\
  (forall acts (m : Machine),
      ready (svc m) = true ->
      ready (svc (fst (run acts m))) = true /\
      creates (snd (run acts m)) = []) /\
  (forall a (m : Machine),
      ready (svc m) = false ->
      ready (svc (fst (exec a m))) = true ->
      creates (snd (exec a m)) = [None]) /\
  (forall a (m : Machine) e,
      In (Some e) (creates (snd (exec a m))) ->
      ready (svc m) = false /\ ready (svc (fst (exec a m))) = false) /\
  (forall a (m : Machine),
      In None (creates (snd (exec a m))) ->
      ready (svc m) = false /\ ready (svc (fst (exec a m))) = true) /\
  (forall acts more (m : Machine),
      In None (creates (snd (run acts m))) ->
      ready (svc (fst (run acts m))) = true /\
      ready (svc (fst (run more (fst (run acts m))))) = true /\
      creates (snd (run more (fst (run acts m)))) = []).
Proof.
  split; [reflexivity|]. split; [exact ready_stays|].
  split; [|split; [|split]].
  - intros a m H0 H1. destruct (exec a m) as [m1 e1] eqn:E. simpl in *.
    destruct (exec_ready a m E)
      as [(? & _) | [(_ & ? & _) | [(_ & ? & _) | (_ & _ & _ & C)]]];
      congruence.
  - intros a m e H. destruct (exec a m) as [m1 e1] eqn:E. simpl in *.
    destruct (exec_ready a m E)
      as [(_ & _ & C) | [(_ & _ & C) | [(? & ? & _) | (_ & _ & _ & C)]]];
      try (rewrite C in H; simpl in H; intuition discriminate).
    auto.
  - intros a m H. destruct (success_sets_ready a m H) as (H0 & H1 & _).
    now split.
  - intros acts more m H.
    pose proof (ready_after_success acts m H) as R.
    split; [exact R|]. now apply ready_stays.
Qed.

(** One move makes one creation call when it is a batch received while
    ReadyState is false, and none otherwise. *)
Lemma exec_creates_count (a : Action Point) (m m' : Machine)
    (evs : list (Event Point)) :
  exec a m = (m', evs) ->
  List.length (creates evs)
  = (if batch_received_unready Parse a m then 1 else 0)%nat.
Proof.
  intros E. destruct m as [s w cd rc bf mp sp rp pp wp].
  unfold batch_received_unready, batch_received, enabled.
  destruct a; step_cases E; simpl;
    repeat match goal with
    | H : ready _ = _ |- _ => rewrite H
    | H : _ = _ |- _ => progress (unfold_in H; simpl in H)
    end;
    unfold step, writer, writer_recv; simpl;
    repeat match goal with
    | H : ready _ = _ |- _ => rewrite H
    end; try reflexivity.
Qed.

(** The creation calls of a run are one for each batch received while
    ReadyState was false; while ReadyState is still false at the end, that
    is every batch received. *)
Lemma run_creates_count (acts : list (Action Point)) (m : Machine) :
  List.length (creates (snd (run acts m)))
  = count_moves Parse (batch_received_unready Parse) acts m /\
  (count_moves Parse (batch_received_unready Parse) acts m
   <= count_moves Parse (batch_received Parse) acts m)%nat /\
  (count_moves Parse (batch_received Parse) acts m
   <= List.length (filter (@is_writer_recv Point) acts))%nat /\
  (ready (svc (fst (run acts m))) = false ->
   count_moves Parse (batch_received_unready Parse) acts m
   = count_moves Parse (batch_received Parse) acts m).
Proof.
  revert m. induction acts as [|a acts IH]; intros m.
  - simpl. auto.
  - rewrite run_cons. cbn [count_moves].
    destruct (exec a m) as [m1 e1] eqn:E. cbn [fst snd].
    destruct (IH m1) as (C & L1 & L2 & R).
    rewrite creates_app, length_app, C, (exec_creates_count a m E).
    split; [reflexivity|].
    assert (B : batch_received_unready Parse a m = true ->
                batch_received Parse a m = true).
    { unfold batch_received_unready. intros H.
      now apply andb_true_iff in H. }
    assert (W : batch_received Parse a m = true -> is_writer_recv a = true).
    { unfold batch_received. intros H. now apply andb_true_iff in H. }
    split; [|split].
    + destruct (batch_received_unready Parse a m);
        [rewrite B by reflexivity|destruct (batch_received Parse a m)]; lia.
    + simpl filter.
      destruct (batch_received Parse a m);
        [rewrite W by reflexivity; simpl|destruct (is_writer_recv a); simpl];
        lia.
    + intros F. rewrite R by exact F.
      assert (F0 : ready (svc m) = false).
      { destruct (ready (svc m)) eqn:F0; [|reflexivity].
        destruct (ready_stays (a :: acts) m F0) as (F1 & _).
        rewrite run_cons, E in F1. simpl in F1. congruence. }
      unfold batch_received_unready. rewrite F0.
      now rewrite andb_true_r.
Qed.

(** C6, as amended.  Over any run of one service instance the creation
    calls are a series of failures followed by at most one success, after
    which none is made: creation succeeds at most once and is never called
    again after it has.  Every batch the writer receives while ReadyState
    is false makes exactly one creation call and no other move makes any:
    the number of calls is the number of batches received while ReadyState
    was false, which is every batch received as long as creation keeps
    failing, and never more than the batches received. *)
Theorem creation_succeeds_at_most_once (d : Config)
    (pw : PointsWriterI Point World) (mc : MetaClientI World) (w : World)
    (acts : list (Action Point)) :
  let m0 := boot (NewService d pw mc) w in
  let r := run acts m0 in
  (exists fails,
     Forall is_error fails /\
     creates (snd r) = fails ++ (if ready (svc (fst r)) then [None] else [])) /\
  List.length (creates (snd r))
  = count_moves Parse (batch_received_unready Parse) acts m0 /\
  (ready (svc (fst r)) = false ->
   List.length (creates (snd r))
   = count_moves Parse (batch_received Parse) acts m0) /\
  (List.length (creates (snd r))
   <= count_moves Parse (batch_received Parse) acts m0)%nat /\
  (count_moves Parse (batch_received Parse) acts m0
   <= List.length (filter (@is_writer_recv Point) acts))%nat /\
  (forall (m : Machine) batch,
     writer_pc m = WriterSelect -> ready (svc m) = false ->
     exists res,
       creates (snd (exec (AWriterRecv batch) m)) = [res] /\
       (res = None <-> ready (svc (fst (exec (AWriterRecv batch) m))) = true)).
Proof.
  intros m0 r.
  destruct (run_creates_count acts m0) as (C & L1 & L2 & R). fold r in C, R.
  split.
  { destruct (@run_creates acts m0 eq_refl) as (fails & F & E & _).
    exists fails. split; assumption. }
  split; [exact C|]. split; [intros F; rewrite C; now apply R|].
  split; [rewrite C; exact L1|]. split; [exact L2|].
  intros m batch Hw Hr.
  destruct (exec (AWriterRecv batch) m) as [m1 e1] eqn:E. simpl.
  destruct (exec_ready _ m E)
    as [(H0 & _) | [(_ & H1 & C1) | [(_ & H1 & _ & e & C1) | (_ & H1 & _ & C1)]]];
    try congruence.
  - pose proof (exec_creates_count _ m E) as K.
    unfold batch_received_unready, batch_received, enabled, step, writer,
      writer_recv in K. simpl in K. rewrite Hw, Hr in K. simpl in K.
    rewrite C1 in K. discriminate K.
  - exists (Some e). split; [exact C1|]. split; congruence.
  - exists None. split; [exact C1|]. split; auto.
Qed.

(** ** Order of payloads and records *)

(** One move: what was in the relay channel plus what the listener adds is
    what the parser takes plus what is left, in order; what the parser had
    in hand plus what it decodes is what it sends plus what it still has in
    hand. *)
Lemma exec_flow (a : Action Point) (m m' : Machine)
    (evs : list (Event Point)) :
  Inv m -> exec a m = (m', evs) ->
  config (svc m') = config (svc m) /\
  parserChan (svc m) ++ relayed evs =
    map fst (parsed evs) ++ parserChan (svc m') /\
  pending m ++ flat_map (decoded (Precision (config (svc m)))) (parsed evs) =
    batcher_in evs ++ pending m'.
Proof.
  intros (_ & _ & I) E. destruct m as [s w cd rc bf mp sp rp pp wp].
  unfold stages_idle in I.
  destruct a; step_cases E; unfold pending, decoded in *; simpl in *;
    rewrite ?app_nil_r; try (split; [reflexivity|split; reflexivity]);
    try solve [ split_ands; subst; auto ].
  all: repeat match goal with H : Parse _ _ _ = _ |- _ => rewrite H end; auto.
Qed.

Lemma run_flow (acts : list (Action Point)) (m : Machine) :
  Inv m ->
  let r := run acts m in
  config (svc (fst r)) = config (svc m) /\
  parserChan (svc m) ++ relayed (snd r) =
    map fst (parsed (snd r)) ++ parserChan (svc (fst r)) /\
  pending m ++ flat_map (decoded (Precision (config (svc m)))) (parsed (snd r)) =
    batcher_in (snd r) ++ pending (fst r).
Proof.
  revert m. induction acts as [|a acts IH]; intros m I r.
  - subst r. simpl. now rewrite !app_nil_r.
  - subst r. rewrite run_cons. simpl.
    destruct (exec a m) as [m1 e1] eqn:E. simpl.
    destruct (@exec_flow a m m1 e1 I E) as (C1 & R1 & P1).
    assert (I1 : Inv m1) by (eapply Inv_exec; eauto).
    destruct (IH m1 I1) as (C2 & R2 & P2).
    rewrite C1 in *.
    rewrite relayed_app, parsed_app, batcher_in_app, map_app, flat_map_app.
    split; [congruence|]. split.
    + rewrite app_assoc, R1, <- !app_assoc. now rewrite R2.
    + rewrite app_assoc, P1, <- !app_assoc. now rewrite P2.
Qed.

(** From the relay channel on, order is kept.  Over any run of a service
    instance: the payloads the parser has taken, followed by those still
    in the relay channel, are the payloads the listener forwarded, in the
    listener's order; and the records handed to the batcher, followed by
    those of the payload in hand still to be sent, are the concatenation,
    in that same order, of what each taken payload decoded to (nothing for
    a payload the decoder rejected). *)
Theorem records_follow_payload_order (d : Config)
    (pw : PointsWriterI Point World) (mc : MetaClientI World) (w : World)
    (acts : list (Action Point)) :
  let r := run acts (boot (NewService d pw mc) w) in
  relayed (snd r) = map fst (parsed (snd r)) ++ parserChan (svc (fst r)) /\
  batcher_in (snd r) ++ pending (fst r) =
    flat_map (decoded (Precision d)) (parsed (snd r)).
Proof.
  intros r.
  assert (I : Inv (boot (NewService d pw mc) w)) by now apply Inv_boot.
  destruct (@run_flow acts _ I) as (_ & R & P). fold r in R, P.
  simpl in R, P. split; [exact R | now rewrite <- P].
Qed.

(** ** Start-up *)

(** After a failed start only the caller's context can still change. *)
Lemma failed_start_is_final (a : Action Point) (m m' : Machine)
    (evs : list (Event Point)) (e : error) :
  main_pc m = MainReturned (Some e) -> stages_idle m ->
  exec a m = (m', evs) ->
  main_pc m' = MainReturned (Some e) /\ stages_idle m' /\
  ready_closed m' = ready_closed m /\ svc m' = svc m /\
  world m' = world m /\ evs = [].
Proof.
  intros Hm (Hs & Hr & Hp & Hw) E. destruct m as [s w cd rc bf mp sp rp pp wp].
  simpl in *. subst.
  destruct a; step_cases E; unfold stages_idle; simpl; auto 10.
Qed.

Lemma failed_start_stays (acts : list (Action Point)) (m : Machine)
    (e : error) :
  main_pc m = MainReturned (Some e) -> stages_idle m ->
  let r := run acts m in
  main_pc (fst r) = MainReturned (Some e) /\ stages_idle (fst r) /\
  ready_closed (fst r) = ready_closed m /\ svc (fst r) = svc m /\
  world (fst r) = world m /\ snd r = [].
Proof.
  revert m. induction acts as [|a acts IH]; intros m Hm Hs r; subst r.
  - simpl. auto 10.
  - rewrite run_cons. simpl. destruct (exec a m) as [m1 e1] eqn:E. simpl.
    destruct (@failed_start_is_final a m m1 e1 e Hm Hs E)
      as (Hm1 & Hs1 & Hr1 & Hv1 & Hw1 & He1).
    destruct (IH m1 Hm1 Hs1) as (Hm2 & Hs2 & Hr2 & Hv2 & Hw2 & He2).
    rewrite He1, He2. repeat split; try apply Hs2; congruence.
Qed.

(** C8.  When the bind address or the database name is empty, or address
    resolution or binding fails, [RunWithReady] (and so [Run]) returns an
    error at once:
    it launches no stage, leaves the ready channel open and the counters
    and wait group untouched, makes no call to a collaborator; and through
    every later schedule it stays so. *)
Theorem startup_failure_is_fatal (s : Service Point World) (w : World)
    (resolve : UDPAddr + error) (listen setbuf : option error)
    (acts : list (Action Point)) :
  BindAddress (config s) = EmptyString \/
  Database (config s) = EmptyString \/
  (exists e, resolve = inr e) \/
  (exists e, listen = Some e) ->
  let first := exec (ARunWithReady resolve listen setbuf) (boot s w) in
  let r := run (ARunWithReady resolve listen setbuf :: acts) (boot s w) in
  exists e,
    main_pc (fst first) = MainReturned (Some e) /\
    main_pc (fst (Run resolve listen setbuf (boot s w)))
    = MainReturned (Some e) /\
    main_pc (fst r) = MainReturned (Some e) /\
    stages_idle (fst r) /\
    ready_closed (fst r) = false /\
    stats (svc (fst r)) = stats s /\
    wg (svc (fst r)) = wg s /\
    ready (svc (fst r)) = ready s /\
    world (fst r) = w /\
    creates (snd r) = [] /\ writes (snd r) = [] /\
    relayed (snd r) = [] /\ parsed (snd r) = [] /\ batcher_in (snd r) = [].
Proof.
  intros H first r.
  assert (F : exists e evs,
             main_pc (fst first) = MainReturned (Some e) /\
             stages_idle (fst first) /\
             ready_closed (fst first) = false /\
             stats (svc (fst first)) = stats s /\
             wg (svc (fst first)) = wg s /\
             ready (svc (fst first)) = ready s /\
             world (fst first) = w /\
             snd first = evs /\
             creates evs = [] /\ writes evs = [] /\ relayed evs = [] /\
             parsed evs = [] /\ batcher_in evs = []).
  { subst first. unfold exec, step, RunWithReady, returns, stages_idle.
    simpl.
    destruct (String.eqb (BindAddress (config s)) EmptyString) eqn:Hb;
      [simpl; eauto 20|].
    destruct (String.eqb (Database (config s)) EmptyString) eqn:Hd;
      [simpl; eauto 20|].
    destruct H as [H | [H | [[e H] | [e H]]]].
    - apply String.eqb_eq in H. congruence.
    - apply String.eqb_eq in H. congruence.
    - subst resolve. simpl. eauto 20.
    - subst listen. destruct resolve as [a|e']; simpl; eauto 20. }
  destruct F as (e & evs & Hm & Hs & Hr & Hst & Hwg & Hrd & Hw & He & C & Wr & Rl & P & B).
  exists e. split; [exact Hm|]. split; [exact Hm|].
  subst r. rewrite run_cons. fold first.
  destruct (@failed_start_stays acts (fst first) e Hm Hs)
    as (Hm2 & Hs2 & Hr2 & Hv2 & Hw2 & He2).
  simpl. rewrite He2, app_nil_r, He, Hv2.
  repeat split; try apply Hs2; try congruence.
Qed.

(** ** The listener *)

(** Only the listener's handling of a payload touches BytesReceived. *)
Lemma bytes_received_kept (a : Action Point) (m m' : Machine)
    (evs : list (Event Point)) :
  a <> AServeHandle -> exec a m = (m', evs) ->
  BytesReceived (stats (svc m')) = BytesReceived (stats (svc m)).
Proof.
  intros Ha E. destruct m as [s w cd rc bf mp sp rp pp wp].
  destruct a; try congruence; step_cases E; reflexivity.
Qed.

(** One read taken through the listener.  A datagram of [n] bytes that
    the read loop reads and the listener handles adds [n] to
    BytesReceived (an int64 addition; the plain sum when in range) and
    touches no other counter; this happens
    before the copy is sent into the relay channel, so before any decoding:
    the listener is then about to send the copy, the channel is as it was
    and no event has occurred.  No move of the parser changes
    BytesReceived, whatever the decoder answers.  A read that fails adds
    one to ReadFail and leaves BytesReceived alone. *)
Theorem bytes_counted_on_read (m : Machine) (c : UDPConn) (data : bytes) :
  serve_pc m = ServeSelect ->
  reader_pc m = ReaderRead ->
  conn (svc m) = Some c -> conn_closed c = false ->
  (List.length data <= List.length (buf m))%nat ->
  let n := Z.of_nat (List.length data) in
  let received := BytesReceived (stats (svc m)) in
  (let r := run (read_and_handle (inl data)) m in
   BytesReceived (stats (svc (fst r))) = AddInt64 received n /\
   (Int64.in_range (received + n) ->
    BytesReceived (stats (svc (fst r))) = received + n) /\
   stats (svc (fst r)) = addBytesReceived n (stats (svc m)) /\
   serve_pc (fst r) = ServeSend data /\
   parserChan (svc (fst r)) = parserChan (svc m) /\
   snd r = []) /\
  (forall a (m1 : Machine),
      parser_action a = true ->
      BytesReceived (stats (svc (fst (exec a m1)))) =
      BytesReceived (stats (svc m1))) /\
  (forall e,
      let r := run (read_and_handle (inr e)) m in
      BytesReceived (stats (svc (fst r))) = received /\
      ReadFail (stats (svc (fst r))) = AddInt64 (ReadFail (stats (svc m))) 1 /\
      serve_pc (fst r) = ServeSelect).
Proof.
  intros Hs Hr Hc Hcl Hlen n received.
  destruct m as [s w cd rc bf mp sp rp pp wp]. simpl in *. subst sp rp.
  split; [|split].
  - unfold read_and_handle, run, exec, step, serve, read_from_udp.
    simpl. rewrite Hc, Hcl. simpl.
    rewrite Nat.min_l by exact Hlen. rewrite Nat2Z.id.
    rewrite firstn_all. rewrite firstn_app, firstn_all, Nat.sub_diag.
    simpl. rewrite app_nil_r.
    split; [reflexivity|]. split; [intros Hi; now apply AddInt64_exact|].
    auto.
  - intros a m1 Ha. destruct (exec a m1) as [m2 e2] eqn:E. simpl.
    eapply bytes_received_kept; [|exact E].
    intros ->. discriminate Ha.
  - intros e.
    unfold read_and_handle, run, exec, step, serve, read_from_udp.
    simpl. rewrite Hc. simpl. auto.
Qed.

(** X2.  The read loop goes on to its next read as soon as it has handed a
    payload over, while the listener still has to copy [buf[:nbytes]]: when
    a second datagram of the same length is read in between, the listener
    counts the first datagram's bytes but copies and forwards the bytes of
    the second, which the read loop then hands over once more. *)
Theorem copy_races_with_next_read (m : Machine) (c : UDPConn)
    (d1 d2 : bytes) :
  serve_pc m = ServeSelect ->
  reader_pc m = ReaderRead ->
  conn (svc m) = Some c -> conn_closed c = false ->
  List.length d1 = List.length d2 ->
  (List.length d2 <= List.length (buf m))%nat ->
  (List.length (parserChan (svc m)) < parserChanLen)%nat ->
  let r := run (read_overtakes_copy d1 d2) m in
  relayed (snd r) = [d2] /\
  parserChan (svc (fst r)) = parserChan (svc m) ++ [d2] /\
  BytesReceived (stats (svc (fst r))) =
    AddInt64 (BytesReceived (stats (svc m))) (Z.of_nat (List.length d1)) /\
  reader_pc (fst r) =
    ReaderHandoff (mkReadpayload (Z.of_nat (List.length d2)) None).
Proof.
  intros Hs Hr Hc Hcl Hlen Hbuf Hcap.
  destruct m as [s w cd rc bf mp sp rp pp wp]. simpl in *. subst sp rp.
  apply Nat.ltb_lt in Hcap.
  assert (Hm : Nat.min (List.length d2) (List.length bf) = List.length d2)
    by now apply Nat.min_l.
  assert (Hb2 : List.length
                  (firstn (List.length d2) d1 ++ skipn (List.length d2) bf)
                = List.length bf).
  { rewrite length_app, length_firstn, length_skipn, <- Hlen, Nat.min_id. lia. }
  unfold read_overtakes_copy, run, exec, step, serve, read_from_udp,
    serve_send.
  simpl. rewrite Hc, Hcl. simpl. rewrite Hlen, Hm.
  rewrite Hc, Hcl. simpl. rewrite Hb2, Hm. simpl.
  rewrite Nat2Z.id.
  rewrite (firstn_all d2).
  rewrite firstn_app, firstn_all, Nat.sub_diag. simpl. rewrite app_nil_r.
  rewrite Hcap. simpl. auto.
Qed.

(** ** Shutdown *)

(** Once the listener has returned, nothing counts a read failure. *)
Lemma serve_returned_final (a : Action Point) (m m' : Machine)
    (evs : list (Event Point)) :
  Inv m -> serve_pc m = ServeReturned -> exec a m = (m', evs) ->
  serve_pc m' = ServeReturned /\
  ReadFail (stats (svc m')) = ReadFail (stats (svc m)).
Proof.
  intros (_ & _ & I) Hs E. destruct m as [s w cd rc bf mp sp rp pp wp].
  unfold stages_idle in I. simpl in *. subst sp.
  destruct a; step_cases E; simpl; auto;
    split_ands; discriminate.
Qed.

Lemma read_fail_frozen (acts : list (Action Point)) (m : Machine) :
  Inv m -> serve_pc m = ServeReturned ->
  serve_pc (fst (run acts m)) = ServeReturned /\
  ReadFail (stats (svc (fst (run acts m)))) = ReadFail (stats (svc m)).
Proof.
  revert m. induction acts as [|a acts IH]; intros m I Hs; [now split|].
  rewrite run_cons. simpl. destruct (exec a m) as [m1 e1] eqn:E. simpl.
  destruct (@serve_returned_final a m m1 e1 I Hs E) as (Hs1 & R1).
  assert (I1 : Inv m1) by (eapply Inv_exec; eauto).
  destruct (IH m1 I1 Hs1) as (Hs2 & R2). split; congruence.
Qed.

(** C9, as amended.  In every machine a run of a service instance can
    reach: a stage at its select may, once the context is cancelled, take
    the cancellation branch, and then it returns without touching a
    counter, the listener closing the socket as it goes; once the listener
    has returned, every read of a datagram fails and ReadFail never
    changes again, so the failure of the read in flight is not counted;
    [s.wg.Wait()] returns exactly when the three stages have returned, and
    [RunWithReady] then returns nil; a [RunWithReady] that launched its
    stages never returns an error. *)
Theorem shutdown_is_cooperative (d : Config)
    (pw : PointsWriterI Point World) (mc : MetaClientI World) (w : World)
    (acts : list (Action Point)) :
  let m := fst (run acts (boot (NewService d pw mc) w)) in
  (ctx_done m = true -> serve_pc m = ServeSelect ->
   exists m' c,
     step AServeDone m = Some (m', []) /\
     serve_pc m' = ServeReturned /\
     conn (svc m') = Some c /\ conn_closed c = true /\
     stats (svc m') = stats (svc m)) /\
  (ctx_done m = true -> parser_pc m = ParserSelect ->
   exists m',
     step AParserDone m = Some (m', []) /\
     parser_pc m' = ParserReturned /\ stats (svc m') = stats (svc m)) /\
  (ctx_done m = true -> writer_pc m = WriterSelect ->
   exists m',
     step AWriterDone m = Some (m', []) /\
     writer_pc m' = WriterReturned /\ stats (svc m') = stats (svc m)) /\
  (serve_pc m = ServeReturned ->
   (forall data, step (AReadFromUDP (inl data)) m = None) /\
   (forall acts',
       ReadFail (stats (svc (fst (run acts' m)))) = ReadFail (stats (svc m)))) /\
  (main_pc m = MainWait -> stages_returned m ->
   step AWaitReturn m =
   Some (set_main_pc (MainReturned None) m, [EvLog "Service closed"])) /\
  (main_pc m = MainWait -> ~ stages_returned m ->
   step AWaitReturn m = None) /\
  (main_pc m = MainReturned None -> stages_returned m) /\
  (ready_closed m = true ->
   main_pc m = MainWait \/ main_pc m = MainReturned None).
Proof.
  intros m.
  assert (I : Inv m).
  { subst m. apply Inv_run. now apply Inv_boot. }
  clearbody m. clear acts.
  pose proof I as (Hwg & Hconn & Hmain).
  destruct m as [s w0 cd rc bf mp sp rp pp wp].
  unfold conn_state, stages_returned, stages_idle, serve_alive, parser_alive,
    writer_alive in *; simpl in *.
  repeat match goal with |- _ /\ _ => split end.
  - intros Hc Hs. subst cd sp. destruct Hconn as (c & Hc & Hcl).
    unfold step, serve, serve_done; simpl. rewrite Hc. simpl.
    eexists; exists (conn_Close c). repeat split.
  - intros Hc Hs. subst cd pp.
    unfold step, parser, parser_done; simpl. eexists. repeat split.
  - intros Hc Hs. subst cd wp.
    unfold step, writer, writer_done; simpl. eexists. repeat split.
  - intros Hs. subst sp. destruct Hconn as (c & Hc & Hcl). split.
    + intros data. unfold step, serve, read_from_udp; simpl.
      rewrite Hc, Hcl. now destruct rp.
    + intros acts'. now apply read_fail_frozen.
  - intros Hm (Hs & Hp & Hw). subst mp sp pp wp. simpl in Hwg.
    unfold step, wait_return; simpl. now rewrite Hwg.
  - intros Hm Hn. subst mp. unfold step, wait_return; simpl.
    destruct (wg s) eqn:Hz; [|reflexivity].
    exfalso. apply Hn. destruct Hmain as (H1 & H2 & H3 & _).
    destruct sp, pp, wp; simpl in Hwg; try discriminate Hwg; try congruence;
      auto.
  - intros Hm. subst mp. apply Hmain.
  - intros Hr. subst rc. destruct mp as [| |[e|]]; auto;
      destruct Hmain as (_ & Hf); discriminate Hf.
Qed.

(** A listener blocked on the full relay channel after the parser has
    returned stays blocked, and the supervisor keeps waiting. *)
Lemma jammed_exec (a : Action Point) (m m' : Machine)
    (evs : list (Event Point)) :
  Inv m -> jammed m -> exec a m = (m', evs) -> jammed m'.
Proof.
  intros (Hwg & _ & _) ([b Hs] & Hp & Hl & Hm) E.
  destruct m as [s w cd rc bf mp sp rp pp wp].
  unfold jammed, serve_alive, parser_alive, writer_alive in *. simpl in *.
  subst sp pp mp.
  destruct a; step_cases E; simpl; eauto 6; try discriminate.
  rewrite Hl, Nat.ltb_irrefl in *. discriminate.
Qed.

(** X1.  When the parser has returned on cancellation while the listener
    is blocked in [s.parserChan <- bufCopy] on a full relay channel, no
    schedule ever unblocks the listener: it never returns, the wait group
    never reaches zero and [RunWithReady] never returns. *)
Theorem blocked_listener_never_returns (m : Machine)
    (acts : list (Action Point)) :
  Inv m -> jammed m ->
  jammed (fst (run acts m)) /\
  serve_pc (fst (run acts m)) <> ServeReturned /\
  main_pc (fst (run acts m)) = MainWait.
Proof.
  revert m. induction acts as [|a acts IH]; intros m I J.
  - simpl. split; [exact J|]. destruct J as ([b Hb] & _ & _ & Hm).
    split; [congruence | exact Hm].
  - rewrite run_cons. simpl. destruct (exec a m) as [m1 e1] eqn:E. simpl.
    apply IH; [eapply Inv_exec; eauto | eapply jammed_exec; eauto].
Qed.

End Properties.

(** * Further properties *)

Section MoreProperties.

Variable Point : Type.
Variable World : Type.
Variable Parse : bytes -> Instant -> string -> list Point * option error.

Local Abbreviation Machine := (Machine Point World).
Local Abbreviation exec := (@exec Point World Parse).
Local Abbreviation step := (@step Point World Parse).
Local Abbreviation run := (@run Point World Parse).

(** ** More int64 arithmetic *)

Lemma wrap_range (z : Z) : Int64.in_range (Int64.wrap z).
Proof.
  unfold Int64.in_range, Int64.min, Int64.max, Int64.wrap.
  pose proof (Z.mod_pos_bound (z + 2 ^ 63) (2 ^ 64) ltac:(lia)). lia.
Qed.

Lemma wrap_add_l (a b : Z) : Int64.wrap (Int64.wrap a + b) = Int64.wrap (a + b).
Proof.
  unfold Int64.wrap.
  replace ((a + 2 ^ 63) mod 2 ^ 64 - 2 ^ 63 + b + 2 ^ 63)
    with ((a + 2 ^ 63) mod 2 ^ 64 + b) by lia.
  rewrite Zplus_mod_idemp_l. f_equal. f_equal. lia.
Qed.

Lemma AddInt64_range (v d : Z) : Int64.in_range (AddInt64 v d).
Proof. apply wrap_range. Qed.

Lemma counters_in_range_zero : counters_in_range zeroStatistics.
Proof.
  unfold counters_in_range, Int64.in_range, Int64.min, Int64.max. simpl.
  repeat split; lia.
Qed.

Lemma counters_in_range_exec (a : Action Point) (m m' : Machine)
    (evs : list (Event Point)) :
  exec a m = (m', evs) ->
  counters_in_range (stats (svc m)) -> counters_in_range (stats (svc m')).
Proof.
  intros E H. destruct m as [s w cd rc bf mp sp rp pp wp].
  unfold counters_in_range in H. simpl in H.
  destruct H as (H1 & H2 & H3 & H4 & H5 & H6 & H7).
  destruct a; step_cases E; unfold counters_in_range; simpl;
    repeat match goal with |- _ /\ _ => split end;
    auto; apply AddInt64_range.
Qed.

Lemma counters_in_range_run (acts : list (Action Point)) (m : Machine) :
  counters_in_range (stats (svc m)) ->
  counters_in_range (stats (svc (fst (run acts m)))).
Proof.
  revert m. induction acts as [|a acts IH]; intros m H; [exact H|].
  rewrite run_cons. simpl. destruct (exec a m) as [m1 e1] eqn:E. simpl.
  apply IH. eapply counters_in_range_exec; eauto.
Qed.

(** ** The delivery counters against the write calls *)

Lemma delivered_app (e1 e2 : list (Event Point)) :
  delivered (e1 ++ e2) = delivered e1 ++ delivered e2.
Proof. unfold delivered. now rewrite writes_app, filter_app, map_app. Qed.

Lemma dropped_app (e1 e2 : list (Event Point)) :
  dropped (e1 ++ e2) = dropped e1 ++ dropped e2.
Proof. unfold dropped. now rewrite writes_app, filter_app, map_app. Qed.

Lemma exec_delivery (a : Action Point) (m m' : Machine)
    (evs : list (Event Point)) :
  exec a m = (m', evs) ->
  counters_in_range (stats (svc m)) ->
  BatchesTransmitted (stats (svc m')) =
    Int64.wrap (BatchesTransmitted (stats (svc m))
                + Z.of_nat (List.length (delivered evs))) /\
  PointsTransmitted (stats (svc m')) =
    Int64.wrap (PointsTransmitted (stats (svc m))
                + Z.of_nat (List.length (List.concat (delivered evs)))) /\
  BatchesTransmitFail (stats (svc m')) =
    Int64.wrap (BatchesTransmitFail (stats (svc m))
                + Z.of_nat (List.length (dropped evs))) /\
  (List.length (writes evs)
   <= List.length (filter (@is_writer_recv Point) [a]))%nat.
Proof.
  intros E H. destruct m as [s w cd rc bf mp sp rp pp wp].
  unfold counters_in_range in H. simpl in H.
  destruct H as (_ & _ & _ & _ & H5 & H6 & H7).
  destruct a; step_cases E; unfold delivered, dropped, AddInt64; simpl;
    rewrite ?Z.add_0_r, ?app_nil_r;
    repeat split; auto;
    symmetry; apply wrap_in_range; assumption.
Qed.

Lemma run_delivery (acts : list (Action Point)) (m : Machine) :
  counters_in_range (stats (svc m)) ->
  let r := run acts m in
  BatchesTransmitted (stats (svc (fst r))) =
    Int64.wrap (BatchesTransmitted (stats (svc m))
                + Z.of_nat (List.length (delivered (snd r)))) /\
  PointsTransmitted (stats (svc (fst r))) =
    Int64.wrap (PointsTransmitted (stats (svc m))
                + Z.of_nat (List.length (List.concat (delivered (snd r))))) /\
  BatchesTransmitFail (stats (svc (fst r))) =
    Int64.wrap (BatchesTransmitFail (stats (svc m))
                + Z.of_nat (List.length (dropped (snd r)))) /\
  (List.length (writes (snd r))
   <= List.length (filter (@is_writer_recv Point) acts))%nat.
Proof.
  revert m. induction acts as [|a acts IH]; intros m H r; subst r.
  - destruct H as (_ & _ & _ & _ & H5 & H6 & H7). simpl.
    rewrite !Z.add_0_r, !wrap_in_range by assumption. auto.
  - rewrite run_cons. simpl fst. simpl snd.
    destruct (exec a m) as [m1 e1] eqn:E. simpl fst. simpl snd.
    destruct (@exec_delivery a m m1 e1 E H) as (B1 & P1 & F1 & W1).
    assert (H1 : counters_in_range (stats (svc m1)))
      by (eapply counters_in_range_exec; eauto).
    destruct (IH m1 H1) as (B2 & P2 & F2 & W2).
    rewrite delivered_app, dropped_app, writes_app, concat_app, !length_app,
      !Nat2Z.inj_add.
    rewrite B2, P2, F2, B1, P1, F1, !wrap_add_l, !Z.add_assoc.
    repeat split; auto.
    simpl in W1 |- *. destruct (is_writer_recv a); simpl in *; lia.
Qed.

(** X3.  Over any run of a service instance the three delivery counters
    agree with the write calls made: BatchesTransmitted is the number of
    write calls that succeeded, PointsTransmitted the number of points in
    their batches, BatchesTransmitFail the number of write calls that
    failed (as int64 values), and there are never more write calls than
    batches the writer received. *)
Theorem delivery_counters_match_writes (d : Config)
    (pw : PointsWriterI Point World) (mc : MetaClientI World) (w : World)
    (acts : list (Action Point)) :
  let r := run acts (boot (NewService d pw mc) w) in
  BatchesTransmitted (stats (svc (fst r))) =
    Int64.wrap (Z.of_nat (List.length (delivered (snd r)))) /\
  PointsTransmitted (stats (svc (fst r))) =
    Int64.wrap (Z.of_nat (List.length (List.concat (delivered (snd r))))) /\
  BatchesTransmitFail (stats (svc (fst r))) =
    Int64.wrap (Z.of_nat (List.length (dropped (snd r)))) /\
  (List.length (writes (snd r))
   <= List.length (filter (@is_writer_recv Point) acts))%nat.
Proof.
  intros r.
  apply (@run_delivery acts (boot (NewService d pw mc) w)
           counters_in_range_zero).
Qed.

(** ** Collaborator calls *)

Lemma exec_keeps_config (a : Action Point) (m m' : Machine)
    (evs : list (Event Point)) :
  exec a m = (m', evs) ->
  config (svc m') = config (svc m) /\
  PointsWriter (svc m') = PointsWriter (svc m) /\
  MetaClient (svc m') = MetaClient (svc m).
Proof.
  intros E. destruct m as [s w cd rc bf mp sp rp pp wp].
  destruct a; step_cases E; simpl; auto.
Qed.

Lemma exec_calls (a : Action Point) (m m' : Machine)
    (evs : list (Event Point)) :
  exec a m = (m', evs) ->
  Forall (call_uses_config (config (svc m))) evs /\
  (ready (svc m) = false ->
   (ready (svc m') = false /\ writes evs = []) \/
   (ready (svc m') = true /\
    exists rest,
      evs = EvCreateDatabase (Database (config (svc m))) None :: rest)).
Proof.
  intros E. destruct m as [s w cd rc bf mp sp rp pp wp].
  destruct a; step_cases E; simpl;
    (split;
     [ repeat constructor
     | intros Hr; try congruence; first [ left; now split | right; eauto ] ]).
Qed.

Lemma run_calls_use_config (acts : list (Action Point)) (m : Machine) :
  Forall (call_uses_config (config (svc m))) (snd (run acts m)).
Proof.
  revert m. induction acts as [|a acts IH]; intros m; [constructor|].
  rewrite run_cons. simpl. destruct (exec a m) as [m1 e1] eqn:E. simpl.
  apply Forall_app. split; [now apply (exec_calls a m E)|].
  destruct (@exec_keeps_config a m m1 e1 E) as (C & _). rewrite <- C.
  apply IH.
Qed.

Lemma run_writes_follow_creation (acts : list (Action Point)) (m : Machine) :
  ready (svc m) = false ->
  let r := run acts m in
  (ready (svc (fst r)) = false -> writes (snd r) = []) /\
  exists pre post,
    snd r = pre ++ post /\ writes pre = [] /\
    (post = [] \/
     exists rest,
       post = EvCreateDatabase (Database (config (svc m))) None :: rest).
Proof.
  revert m. induction acts as [|a acts IH]; intros m H r; subst r.
  - simpl. split; [reflexivity|]. exists [], []. auto.
  - rewrite run_cons. simpl fst. simpl snd.
    destruct (exec a m) as [m1 e1] eqn:E. simpl fst. simpl snd.
    destruct (@exec_keeps_config a m m1 e1 E) as (C & _).
    destruct (proj2 (@exec_calls a m m1 e1 E) H)
      as [(H1 & W1) | (H1 & rest & E1)].
    + destruct (IH m1 H1) as (N & pre & post & S & Wp & P).
      split.
      * intros Hf. rewrite writes_app, W1. simpl. now apply N.
      * exists (e1 ++ pre), post. rewrite S, app_assoc, writes_app, W1, Wp.
        rewrite C in P. auto.
    + destruct (@ready_stays Point World Parse acts m1 H1) as (H2 & _). split.
      * intros Hf. congruence.
      * exists [], (e1 ++ snd (run acts m1)). subst e1. simpl.
        repeat split; auto. right. eauto.
Qed.

(** X4.  Over any run of a service instance no write call is made before
    a creation call has succeeded: the run's events are a part without
    write calls followed, if by anything, by a successful creation call
    and what comes after it, and while ReadyState is false no write call
    has been made.  Every creation call names the configured database and
    every write call the configured database and retention policy with
    [ConsistencyLevelAny]. *)
Theorem writes_follow_creation (d : Config)
    (pw : PointsWriterI Point World) (mc : MetaClientI World) (w : World)
    (acts : list (Action Point)) :
  let r := run acts (boot (NewService d pw mc) w) in
  Forall (call_uses_config d) (snd r) /\
  (ready (svc (fst r)) = false -> writes (snd r) = []) /\
  exists pre post,
    snd r = pre ++ post /\ writes pre = [] /\
    (post = [] \/
     exists rest, post = EvCreateDatabase (Database d) None :: rest).
Proof.
  intros r. split.
  - apply (run_calls_use_config acts (boot (NewService d pw mc) w)).
  - apply (@run_writes_follow_creation acts (boot (NewService d pw mc) w)).
    reflexivity.
Qed.

(** ** The parser's counters against what it took and sent *)

Lemma exec_parser_tally (a : Action Point) (m m' : Machine)
    (evs : list (Event Point)) :
  Inv m -> exec a m = (m', evs) ->
  counters_in_range (stats (svc m)) ->
  Int64.wrap (PointsReceived (stats (svc m')) + sent_in_hand m') =
    Int64.wrap (PointsReceived (stats (svc m)) + sent_in_hand m
                + Z.of_nat (List.length (batcher_in evs))) /\
  PointsParseFail (stats (svc m')) =
    Int64.wrap (PointsParseFail (stats (svc m))
                + Z.of_nat
                    (List.length
                       (filter (rejected Parse (Precision (config (svc m))))
                          (parsed evs)))).
Proof.
  intros (_ & _ & I) E H. destruct m as [s w cd rc bf mp sp rp pp wp].
  unfold counters_in_range in H. simpl in H.
  destruct H as (H1 & _ & H3 & _).
  unfold stages_idle in I.
  destruct a; step_cases E; unfold sent_in_hand, rejected, AddInt64 in *;
    simpl in *;
    repeat match goal with H : Parse _ _ _ = _ |- _ => rewrite H end;
    simpl; split_ands; subst; simpl; unfold AddInt64;
    (split;
     [ rewrite ?wrap_add_l; f_equal; lia
     | first [ reflexivity
             | rewrite Z.add_0_r; symmetry; apply wrap_in_range; assumption ] ]).
Qed.

Lemma run_parser_tally (acts : list (Action Point)) (m : Machine) :
  Inv m -> counters_in_range (stats (svc m)) ->
  let r := run acts m in
  Int64.wrap (PointsReceived (stats (svc (fst r))) + sent_in_hand (fst r)) =
    Int64.wrap (PointsReceived (stats (svc m)) + sent_in_hand m
                + Z.of_nat (List.length (batcher_in (snd r)))) /\
  PointsParseFail (stats (svc (fst r))) =
    Int64.wrap (PointsParseFail (stats (svc m))
                + Z.of_nat
                    (List.length
                       (filter (rejected Parse (Precision (config (svc m))))
                          (parsed (snd r))))).
Proof.
  revert m. induction acts as [|a acts IH]; intros m I H r; subst r.
  - destruct H as (_ & _ & H3 & _). simpl.
    rewrite !Z.add_0_r. split; [reflexivity|].
    symmetry. now apply wrap_in_range.
  - rewrite run_cons. simpl fst. simpl snd.
    destruct (exec a m) as [m1 e1] eqn:E. simpl fst. simpl snd.
    destruct (@exec_parser_tally a m m1 e1 I E H) as (R1 & F1).
    destruct (@exec_keeps_config a m m1 e1 E) as (C & _).
    assert (I1 : Inv m1) by (eapply Inv_exec; eauto).
    assert (H1 : counters_in_range (stats (svc m1)))
      by (eapply counters_in_range_exec; eauto).
    destruct (IH m1 I1 H1) as (R2 & F2). rewrite C in F2.
    rewrite batcher_in_app, parsed_app, filter_app, !length_app,
      !Nat2Z.inj_add.
    split.
    + rewrite R2, <- wrap_add_l, R1, wrap_add_l. f_equal. lia.
    + rewrite F2, F1, wrap_add_l. f_equal. lia.
Qed.

(** X5.  Over any run of a service instance the parser's two counters
    agree with what it did: PointsReceived is the number of points sent
    into the batcher, less those of the payload still in hand (so exactly
    the number sent whenever the parser is at its select), and
    PointsParseFail is the number of taken payloads that the decoder
    rejected (as int64 values). *)
Theorem parser_counters_match_events (d : Config)
    (pw : PointsWriterI Point World) (mc : MetaClientI World) (w : World)
    (acts : list (Action Point)) :
  let r := run acts (boot (NewService d pw mc) w) in
  let sent := Z.of_nat (List.length (batcher_in (snd r))) in
  PointsReceived (stats (svc (fst r))) =
    Int64.wrap (sent - sent_in_hand (fst r)) /\
  (parser_pc (fst r) = ParserSelect ->
   PointsReceived (stats (svc (fst r))) = Int64.wrap sent) /\
  PointsParseFail (stats (svc (fst r))) =
    Int64.wrap
      (Z.of_nat
         (List.length (filter (rejected Parse (Precision d)) (parsed (snd r))))).
Proof.
  intros r sent.
  assert (I : Inv (boot (NewService d pw mc) w)) by now apply Inv_boot.
  destruct (@run_parser_tally acts _ I counters_in_range_zero) as (R & F).
  fold r in R, F. simpl in R, F. fold sent in R.
  assert (H : counters_in_range (stats (svc (fst r))))
    by (apply counters_in_range_run; apply counters_in_range_zero).
  destruct H as (H1 & _).
  assert (E : PointsReceived (stats (svc (fst r))) =
              Int64.wrap (sent - sent_in_hand (fst r))).
  { rewrite <- (wrap_in_range H1) at 1.
    replace (PointsReceived (stats (svc (fst r))))
      with (PointsReceived (stats (svc (fst r))) + sent_in_hand (fst r)
            + - sent_in_hand (fst r)) at 1 by lia.
    rewrite <- wrap_add_l, R, wrap_add_l. f_equal; lia. }
  split; [exact E|]. split; [|exact F].
  intros Hpc. rewrite E. unfold sent_in_hand. rewrite Hpc. f_equal; lia.
Qed.

(** ** The listener's buffer, its counters and the relay channel *)

Lemma MaxUDPPayload_nonneg : 0 <= MaxUDPPayload.
Proof. vm_compute. discriminate. Qed.

Lemma InvBuf_boot (d : Config) (pw : PointsWriterI Point World)
    (mc : MetaClientI World) (w : World) :
  InvBuf (boot (NewService d pw mc) w).
Proof. unfold InvBuf. simpl. repeat split; auto. lia. Qed.

(** A datagram written over the head of the buffer leaves its length. *)
Lemma overlay_length (data bf : bytes) :
  let n := Nat.min (List.length data) (List.length bf) in
  List.length (firstn n data ++ skipn n bf) = List.length bf.
Proof.
  intros n. rewrite length_app, length_firstn, length_skipn. subst n. lia.
Qed.

Lemma InvBuf_exec (a : Action Point) (m m' : Machine)
    (evs : list (Event Point)) :
  Inv m -> InvBuf m -> exec a m = (m', evs) ->
  InvBuf m' /\
  Forall (fun b => Z.of_nat (List.length b) <= MaxUDPPayload) (relayed evs).
Proof.
  intros (_ & _ & I) (Hb & Hr & Hs & Hc & Hl) E.
  pose proof MaxUDPPayload_nonneg as Hmax.
  destruct m as [s w cd rc bf mp sp rp pp wp].
  unfold stages_idle in I. unfold payload_fits in *. simpl in *.
  destruct a; step_cases E; unfold InvBuf, payload_fits; simpl in *;
    split_ands; subst; simpl in *.
  all: try (split; [|solve [repeat constructor; auto]]).
  all: repeat match goal with |- _ /\ _ => split end; auto.
  all: try discriminate; try (rewrite repeat_length; reflexivity).
  all: rewrite ?overlay_length.
  all: repeat match goal with
       | H : parserChan _ = _ |- _ => rewrite H in *
       end.
  all: try solve [destruct sp; auto].
  all: try solve [intros _; lia].
  all: try solve [inversion Hc; auto].
  all: try solve [simpl in Hl; lia].
  all: try solve [apply Forall_app; split; auto].
  all: try solve [rewrite length_app; simpl;
                  match goal with
                  | H : (_ <? _)%nat = true |- _ => apply Nat.ltb_lt in H; lia
                  end].
  all: try solve [rewrite length_firstn; lia].
  all: auto.
Qed.

Lemma InvBuf_run (acts : list (Action Point)) (m : Machine) :
  Inv m -> InvBuf m ->
  InvBuf (fst (run acts m)) /\
  Forall (fun b => Z.of_nat (List.length b) <= MaxUDPPayload)
    (relayed (snd (run acts m))).
Proof.
  revert m. induction acts as [|a acts IH]; intros m I B.
  - simpl. split; [exact B | constructor].
  - rewrite run_cons. simpl fst. simpl snd.
    destruct (exec a m) as [m1 e1] eqn:E. simpl fst. simpl snd.
    destruct (@InvBuf_exec a m m1 e1 I B E) as (B1 & F1).
    assert (I1 : Inv m1) by (eapply Inv_exec; eauto).
    destruct (IH m1 I1 B1) as (B2 & F2).
    split; [exact B2|]. rewrite relayed_app. apply Forall_app. now split.
Qed.

Lemma read_failures_app (e1 e2 : list (Event Point)) :
  read_failures (e1 ++ e2) = read_failures e1 ++ read_failures e2.
Proof. apply filter_app. Qed.

Lemma total_bytes_app (l1 l2 : list bytes) :
  total_bytes (l1 ++ l2) = total_bytes l1 + total_bytes l2.
Proof.
  unfold total_bytes. now rewrite concat_app, length_app, Nat2Z.inj_add.
Qed.

Lemma exec_listener_tally (a : Action Point) (m m' : Machine)
    (evs : list (Event Point)) :
  Inv m -> InvBuf m -> exec a m = (m', evs) ->
  counters_in_range (stats (svc m)) ->
  Int64.wrap (BytesReceived (stats (svc m')) - copy_in_hand m') =
    Int64.wrap (BytesReceived (stats (svc m)) - copy_in_hand m
                + total_bytes (relayed evs)) /\
  ReadFail (stats (svc m')) =
    Int64.wrap (ReadFail (stats (svc m))
                + Z.of_nat (List.length (read_failures evs))).
Proof.
  intros (_ & _ & I) (Hb & _ & Hs & _) E H.
  destruct m as [s w cd rc bf mp sp rp pp wp].
  unfold counters_in_range in H. simpl in H.
  destruct H as (_ & H2 & _ & H4 & _).
  unfold stages_idle in I. unfold payload_fits in *. simpl in *.
  destruct a; step_cases E;
    unfold copy_in_hand, total_bytes, read_failures; simpl in *;
    split_ands; subst; simpl; unfold AddInt64;
    rewrite ?app_nil_r, ?length_firstn;
    try match goal with
        | H : None = None -> _ |- _ => specialize (H eq_refl)
        end;
    (split;
     [ rewrite <- ?Z.add_opp_r, ?wrap_add_l; f_equal; lia
     | first [ reflexivity
             | rewrite Z.add_0_r; symmetry; apply wrap_in_range; assumption ] ]).
Qed.

Lemma run_listener_tally (acts : list (Action Point)) (m : Machine) :
  Inv m -> InvBuf m -> counters_in_range (stats (svc m)) ->
  let r := run acts m in
  Int64.wrap (BytesReceived (stats (svc (fst r))) - copy_in_hand (fst r)) =
    Int64.wrap (BytesReceived (stats (svc m)) - copy_in_hand m
                + total_bytes (relayed (snd r))) /\
  ReadFail (stats (svc (fst r))) =
    Int64.wrap (ReadFail (stats (svc m))
                + Z.of_nat (List.length (read_failures (snd r)))).
Proof.
  revert m. induction acts as [|a acts IH]; intros m I B H r; subst r.
  - destruct H as (_ & _ & _ & H4 & _). simpl.
    unfold total_bytes. simpl. rewrite !Z.add_0_r. split; [reflexivity|].
    symmetry. now apply wrap_in_range.
  - rewrite run_cons. simpl fst. simpl snd.
    destruct (exec a m) as [m1 e1] eqn:E. simpl fst. simpl snd.
    destruct (@exec_listener_tally a m m1 e1 I B E H) as (R1 & F1).
    destruct (@InvBuf_exec a m m1 e1 I B E) as (B1 & _).
    assert (I1 : Inv m1) by (eapply Inv_exec; eauto).
    assert (H1 : counters_in_range (stats (svc m1)))
      by (eapply counters_in_range_exec; eauto).
    destruct (IH m1 I1 B1 H1) as (R2 & F2).
    rewrite relayed_app, read_failures_app, total_bytes_app, length_app,
      Nat2Z.inj_add.
    split.
    + rewrite R2, <- wrap_add_l, R1, wrap_add_l. f_equal; lia.
    + rewrite F2, F1, wrap_add_l. f_equal; lia.
Qed.

(** X6.  Over any run of a service instance the listener's two counters
    agree with what it did: BytesReceived is the total size of the
    payloads it has sent into the relay channel plus the size of the copy
    it is about to send, and ReadFail is the number of failed reads it has
    logged (as int64 values). *)
Theorem listener_counters_match_events (d : Config)
    (pw : PointsWriterI Point World) (mc : MetaClientI World) (w : World)
    (acts : list (Action Point)) :
  let r := run acts (boot (NewService d pw mc) w) in
  BytesReceived (stats (svc (fst r))) =
    Int64.wrap (total_bytes (relayed (snd r)) + copy_in_hand (fst r)) /\
  ReadFail (stats (svc (fst r))) =
    Int64.wrap (Z.of_nat (List.length (read_failures (snd r)))).
Proof.
  intros r.
  assert (I : Inv (boot (NewService d pw mc) w)) by now apply Inv_boot.
  destruct (@run_listener_tally acts _ I (InvBuf_boot d pw mc w)
              counters_in_range_zero) as (R & F).
  fold r in R, F. simpl in R, F.
  assert (H : counters_in_range (stats (svc (fst r))))
    by (apply counters_in_range_run; apply counters_in_range_zero).
  destruct H as (_ & H2 & _).
  split; [|exact F].
  rewrite <- (wrap_in_range H2) at 1.
  replace (BytesReceived (stats (svc (fst r))))
    with (BytesReceived (stats (svc (fst r))) - copy_in_hand (fst r)
          + copy_in_hand (fst r)) at 1 by lia.
  rewrite <- wrap_add_l, R, wrap_add_l. f_equal; lia.
Qed.

(** X7.  Over any run of a service instance the relay channel never holds
    more than [parserChanLen] payloads, and no payload sent into it, held
    in it or about to be sent is longer than [MaxUDPPayload] bytes; the
    read buffer keeps that size from the launch on. *)
Theorem relay_is_bounded (d : Config)
    (pw : PointsWriterI Point World) (mc : MetaClientI World) (w : World)
    (acts : list (Action Point)) :
  let r := run acts (boot (NewService d pw mc) w) in
  (List.length (parserChan (svc (fst r))) <= parserChanLen)%nat /\
  Forall (fun b => Z.of_nat (List.length b) <= MaxUDPPayload)
    (parserChan (svc (fst r))) /\
  Forall (fun b => Z.of_nat (List.length b) <= MaxUDPPayload)
    (relayed (snd r)) /\
  copy_in_hand (fst r) <= MaxUDPPayload /\
  (main_pc (fst r) = MainWait ->
   Z.of_nat (List.length (buf (fst r))) = MaxUDPPayload).
Proof.
  intros r.
  assert (I : Inv (boot (NewService d pw mc) w)) by now apply Inv_boot.
  destruct (@InvBuf_run acts _ I (InvBuf_boot d pw mc w))
    as ((Hb & _ & Hs & Hc & Hl) & F).
  pose proof (@Inv_run Point World Parse acts _ I) as (_ & _ & J).
  fold r in Hb, Hs, Hc, Hl, F, J.
  pose proof MaxUDPPayload_nonneg as Hmax.
  repeat split; auto.
  - unfold copy_in_hand. destruct (serve_pc (fst r)); auto.
  - intros Hm. rewrite Hm in J. destruct J as (Hn & _).
    destruct (serve_pc (fst r)); try congruence; rewrite Hb; lia.
Qed.

(** ** Stages return on cancellation only *)

Lemma exec_ctx (a : Action Point) (m m' : Machine)
    (evs : list (Event Point)) :
  exec a m = (m', evs) ->
  (ctx_done m = true -> ctx_done m' = true) /\
  (ctx_done m' = true -> ctx_done m = true \/ a = ACancel) /\
  ((some_stage_returned m -> ctx_done m = true) ->
   some_stage_returned m' -> ctx_done m' = true).
Proof.
  intros E. destruct m as [s w cd rc bf mp sp rp pp wp].
  unfold some_stage_returned.
  destruct a; step_cases E; simpl;
    (split; [auto|split; [auto|]]);
    intros H [H1|[H1|H1]]; try discriminate; auto.
Qed.

Lemma run_ctx (acts : list (Action Point)) (m : Machine) :
  (some_stage_returned m -> ctx_done m = true) ->
  (some_stage_returned (fst (run acts m)) ->
   ctx_done (fst (run acts m)) = true) /\
  (ctx_done (fst (run acts m)) = true ->
   ctx_done m = true \/ In ACancel acts).
Proof.
  revert m. induction acts as [|a acts IH]; intros m H.
  - simpl. auto.
  - rewrite run_cons. simpl fst.
    destruct (exec a m) as [m1 e1] eqn:E. simpl fst.
    destruct (@exec_ctx a m m1 e1 E) as (_ & C & R).
    destruct (IH m1 (R H)) as (R2 & C2).
    split; [exact R2|]. intros Hc.
    destruct (C2 Hc) as [Hc1 | Hin]; [|right; now right].
    destruct (C Hc1) as [Hc0 | ->]; [now left | right; now left].
Qed.

(** X8.  Over any run of a service instance a stage returns on
    cancellation only: when the listener, the parser or the writer has
    returned, or [RunWithReady] has returned nil, the context is cancelled
    and a cancellation is part of the schedule; no failed read, rejected
    payload, failed creation or failed write ever stops a stage. *)
Theorem stages_return_on_cancellation_only (d : Config)
    (pw : PointsWriterI Point World) (mc : MetaClientI World) (w : World)
    (acts : list (Action Point)) :
  let m := fst (run acts (boot (NewService d pw mc) w)) in
  (some_stage_returned m \/ main_pc m = MainReturned None ->
   ctx_done m = true /\ In ACancel acts) /\
  (~ In ACancel acts ->
   serve_pc m <> ServeReturned /\ parser_pc m <> ParserReturned /\
   writer_pc m <> WriterReturned /\ main_pc m <> MainReturned None).
Proof.
  intros m.
  assert (H0 : some_stage_returned (boot (NewService d pw mc) w) ->
               ctx_done (boot (NewService d pw mc) w) = true).
  { intros [H|[H|H]]; discriminate H. }
  destruct (@run_ctx acts _ H0) as (R & C). fold m in R, C.
  assert (I : Inv m).
  { subst m. apply Inv_run. now apply Inv_boot. }
  assert (K : some_stage_returned m \/ main_pc m = MainReturned None ->
              ctx_done m = true /\ In ACancel acts).
  { intros H.
    assert (S : some_stage_returned m).
    { destruct H as [H|H]; [exact H|].
      destruct I as (_ & _ & J). rewrite H in J.
      destruct J as ((J & _) & _). now left. }
    split; [now apply R|].
    destruct (C (R S)) as [Hc|Hin]; [discriminate Hc | exact Hin]. }
  split; [exact K|].
  intros Hn. unfold some_stage_returned in K.
  repeat split; intros H; apply Hn; apply K; auto.
Qed.

(** ** Start-up, all cases *)

(** X9.  [RunWithReady] on a fresh machine either launches everything or
    nothing.  It gets to [s.wg.Wait()] exactly when both names are set, the
    address resolves, the socket binds and a configured read buffer size
    can be set; then the three stages and the read loop are running, the
    ready channel is closed, the wait group has grown by three, the
    batcher is built from the configured sizes and started, the socket is
    open on the resolved address with the configured buffer size, and
    nothing but a log line has happened.  Otherwise it has returned an
    error; an empty bind address is reported before an empty database
    name, and both before anything is resolved. *)
Theorem start_succeeds_exactly_when (s : Service Point World) (w : World)
    (resolve : UDPAddr + error) (listen setbuf : option error) :
  let r := exec (ARunWithReady resolve listen setbuf) (boot s w) in
  let m := fst r in
  let cfg := config s in
  (main_pc m = MainWait <-> starts cfg resolve listen setbuf = true) /\
  (starts cfg resolve listen setbuf = true ->
   exists a,
     resolve = inl a /\
     m = mkMachine
           (mkService
              (Some (mkUDPConn a
                       (if ReadBuffer cfg =? 0 then None
                        else Some (ReadBuffer cfg)) false))
              (Some a) (wg s + 3)%nat (ready s) (parserChan s)
              (Some (mkPointBatcher (BatchSize cfg) (BatchPending cfg)
                       (BatchTimeout cfg) true))
              cfg (PointsWriter s) (MetaClient s) (stats s))
           w false true (repeat x00 (Z.to_nat MaxUDPPayload))
           MainWait ServeSelect ReaderRead ParserSelect WriterSelect /\
     snd r = [EvLog "Started listening on UDP"]) /\
  (starts cfg resolve listen setbuf = false ->
   exists e, main_pc m = MainReturned (Some e) /\ stages_idle m /\
             ready_closed m = false) /\
  (BindAddress cfg = EmptyString ->
   main_pc m =
     MainReturned (Some "bind address has to be specified in config"%string)
   /\ svc m = s) /\
  (BindAddress cfg <> EmptyString -> Database cfg = EmptyString ->
   main_pc m =
     MainReturned (Some "database has to be specified in config"%string)
   /\ svc m = s).
Proof.
  intros r m cfg. subst r m cfg.
  unfold starts, exec, step, RunWithReady, launch, returns, stages_idle.
  simpl.
  destruct s as [cn ad g rd ch bt cfg pw mc st]. simpl.
  destruct (String.eqb (BindAddress cfg) EmptyString) eqn:Hb; simpl.
  { apply String.eqb_eq in Hb.
    repeat split; try discriminate; auto; try congruence; eauto 10. }
  apply String.eqb_neq in Hb.
  destruct (String.eqb (Database cfg) EmptyString) eqn:Hd; simpl.
  { apply String.eqb_eq in Hd.
    repeat split; try discriminate; auto; try congruence; eauto 10. }
  apply String.eqb_neq in Hd.
  destruct resolve as [a|e]; simpl;
    [|repeat split; try discriminate; auto; try congruence; eauto 10].
  destruct listen as [e|]; simpl;
    [repeat split; try discriminate; auto; try congruence; eauto 10|].
  destruct (ReadBuffer cfg =? 0) eqn:Hr; simpl.
  { repeat split; try discriminate; auto; try congruence; eauto 10. }
  destruct setbuf as [e|]; simpl;
    repeat split; try discriminate; auto; try congruence; eauto 10.
Qed.

(** X10.  When everything up to the socket works but setting the
    configured read buffer size fails, [RunWithReady] returns that error
    with the socket bound and open, and nothing closes it afterwards: no
    stage was launched, the ready channel stays open, and through every
    later schedule the socket stays as it is. *)
Theorem read_buffer_failure_leaves_socket_open (s : Service Point World)
    (w : World) (a : UDPAddr) (e : error) (acts : list (Action Point)) :
  BindAddress (config s) <> EmptyString ->
  Database (config s) <> EmptyString ->
  ReadBuffer (config s) <> 0 ->
  let r := run (ARunWithReady (inl a) None (Some e) :: acts) (boot s w) in
  main_pc (fst r) = MainReturned (Some e) /\
  conn (svc (fst r)) = Some (mkUDPConn a None false) /\
  addr (svc (fst r)) = Some a /\
  stages_idle (fst r) /\
  ready_closed (fst r) = false /\
  stats (svc (fst r)) = stats s.
Proof.
  intros Hb Hd Hr r.
  apply String.eqb_neq in Hb, Hd. apply Z.eqb_neq in Hr.
  set (first := exec (ARunWithReady (inl a) None (Some e)) (boot s w)).
  assert (F : main_pc (fst first) = MainReturned (Some e) /\
              stages_idle (fst first) /\
              ready_closed (fst first) = false /\
              svc (fst first)
              = set_conn (Some (mkUDPConn a None false))
                  (set_addr (Some a) s)).
  { subst first. unfold exec, step, RunWithReady, returns, stages_idle.
    simpl. rewrite Hb, Hd. simpl. rewrite Hr. simpl. auto 10. }
  destruct F as (Fm & Fs & Fr & Fv).
  subst r. rewrite run_cons. fold first.
  destruct (@failed_start_stays Point World Parse acts (fst first) e Fm Fs)
    as (Hm2 & Hs2 & Hr2 & Hv2 & _ & _).
  simpl fst. rewrite Hv2, Fv. simpl.
  repeat split; try apply Hs2; congruence.
Qed.

(** ** Open and Close *)

Local Abbreviation Harness := (Harness Point World).
Local Abbreviation oexec := (@oexec Point World Parse).
Local Abbreviation orun := (@orun Point World Parse).

Lemma orun_cons (a : OAction Point) (acts : list (OAction Point))
    (h : Harness) :
  orun (a :: acts) h =
  (fst (orun acts (fst (oexec a h))),
   snd (oexec a h) ++ snd (orun acts (fst (oexec a h)))).
Proof.
  simpl. destruct (oexec a h) as [h1 e1]. simpl.
  destruct (orun acts h1) as [h2 e2]. reflexivity.
Qed.

(** What a goroutine's move leaves alone. *)
Lemma step_frame (a : Action Point) (m m' : Machine)
    (evs : list (Event Point)) :
  step a m = Some (m', evs) -> a <> ACancel ->
  ctx_done m' = ctx_done m /\
  (ready_closed m = true -> ready_closed m' = true) /\
  (forall r, main_pc m = MainReturned r -> main_pc m' = MainReturned r) /\
  ((forall x y z, a <> ARunWithReady x y z) ->
   main_pc m = MainIdle -> main_pc m' = MainIdle).
Proof.
  intros S Ha.
  assert (E : exec a m = (m', evs)) by (unfold exec; now rewrite S).
  clear S. destruct m as [s w cd rc bf mp sp rp pp wp].
  destruct a; try congruence; step_cases E; simpl;
    repeat split; auto; try congruence; try discriminate;
    intros H; try discriminate; try (exfalso; eapply H; reflexivity).
Qed.

Lemma HInv_fresh (s : Service Point World) (w : World) :
  wg s = 0%nat -> HInv (fresh s w).
Proof.
  intros H. unfold HInv, fresh. simpl. split; [now apply Inv_boot|].
  split; [|reflexivity]. intros [K|[K|K]]; discriminate K.
Qed.

Lemma Inv_set_ctx_done (b : bool) (m : Machine) :
  Inv m -> Inv (set_ctx_done b m).
Proof. destruct m. exact (fun H => H). Qed.

Lemma HInv_go (a : Action Point) (m m1 : Machine) (c : CallerPC)
    (e1 : list (Event Point)) :
  HInv (mkHarness m c) -> step a m = Some (m1, e1) -> a <> ACancel ->
  (c = CallerIdle -> forall x y z, a <> ARunWithReady x y z) ->
  HInv (mkHarness m1 c).
Proof.
  intros (I & R & C) S Ha Hc. simpl in *.
  assert (E : exec a m = (m1, e1)) by (unfold exec; now rewrite S).
  destruct (@step_frame a m m1 e1 S Ha) as (Fc & Fr & Fm & Fi).
  destruct (@exec_ctx a m m1 e1 E) as (_ & _ & Rx).
  unfold HInv. simpl.
  split; [eapply Inv_exec; eauto|]. split; [now apply Rx|].
  destruct c; rewrite ?Fc; auto.
  - destruct C as (C1 & C2). split; auto.
  - destruct C as (C1 & C2). split; auto.
  - destruct C as (C1 & C2 & C3). repeat split; auto.
Qed.

Lemma HInv_oexec (a : OAction Point) (h h' : Harness)
    (evs : list (Event Point)) :
  HInv h -> oexec a h = (h', evs) -> HInv h'.
Proof.
  intros H E. destruct h as [m c].
  destruct a as [| | | |a].
  - (* Open *)
    destruct H as (I & R & C). simpl in *.
    ostep_cases E; unfold HInv; simpl; try tauto.
    destruct m as [s w cd rc bf mp sp rp pp wp]. simpl in *. subst mp.
    destruct I as (Hwg & Hc & (Hs & Hp & Hr & Hw) & _).
    simpl in *. subst.
    unfold Inv, stages_idle, some_stage_returned, conn_state; simpl.
    repeat split; auto. intros [K|[K|K]]; discriminate K.
  - (* Open returns *)
    destruct H as (I & R & C). simpl in *.
    ostep_cases E; unfold HInv; simpl; try tauto.
  - (* Close *)
    destruct H as (I & R & C). simpl in *.
    ostep_cases E; unfold HInv; simpl; try tauto.
  - (* Close returns *)
    destruct H as (I & R & C). simpl in *.
    ostep_cases E; unfold HInv; simpl; try tauto.
  - (* a goroutine moves *)
    unfold oexec, ostep, go in E. simpl in E.
    destruct (step a m) as [[m1 e1]|] eqn:S.
    + destruct a; try (inversion E; subst; exact H);
        try (inversion E; subst; eapply HInv_go; eauto; congruence).
      destruct c; inversion E; subst; try exact H;
        eapply HInv_go; eauto; congruence.
    + destruct a; try (inversion E; subst; exact H).
      destruct c; inversion E; subst; exact H.
Qed.

Lemma HInv_orun (acts : list (OAction Point)) (h : Harness) :
  HInv h -> HInv (fst (orun acts h)).
Proof.
  revert h. induction acts as [|a acts IH]; intros h H; [exact H|].
  rewrite orun_cons. simpl. apply IH.
  destruct (oexec a h) as [h1 e1] eqn:E. simpl. eapply HInv_oexec; eauto.
Qed.

(** X11.  Around any run started by [Open]: [Open] returns only once the
    stages have been launched and the ready channel is closed, and from
    then until [Close] is called the context is not cancelled, the
    supervisor is waiting and none of the three stages has returned;
    [Close] returns only what [RunWithReady] returned, which is nil, and
    only after all three stages have returned. *)
Theorem open_and_close_bracket_the_run (d : Config)
    (pw : PointsWriterI Point World) (mc : MetaClientI World) (w : World)
    (acts : list (OAction Point)) :
  let h := fst (orun acts (fresh (NewService d pw mc) w)) in
  let m := machine h in
  (caller h = Opened ->
   ready_closed m = true /\ ctx_done m = false /\ main_pc m = MainWait /\
   ~ some_stage_returned m) /\
  (caller h = CloseWait ->
   ctx_done m = true /\
   (main_pc m = MainWait \/ main_pc m = MainReturned None)) /\
  (forall r, caller h = Closed r ->
   r = None /\ main_pc m = MainReturned None /\ stages_returned m /\
   ctx_done m = true).
Proof.
  intros h m.
  assert (H : HInv h).
  { subst h. apply HInv_orun. now apply HInv_fresh. }
  destruct H as (I & R & C). fold m in I, R, C.
  pose proof I as (_ & _ & J).
  split; [|split].
  - intros Hc. rewrite Hc in C. destruct C as (C1 & C2).
    assert (N : ~ some_stage_returned m).
    { intros K. apply R in K. congruence. }
    repeat split; auto.
    destruct (main_pc m) as [| |[e|]].
    + destruct J as (_ & J). congruence.
    + reflexivity.
    + destruct J as (_ & J). congruence.
    + exfalso. apply N. left. apply J.
  - intros Hc. rewrite Hc in C. destruct C as (C1 & C2).
    split; [exact C2|].
    destruct (main_pc m) as [| |[e|]]; auto;
      destruct J as (_ & J); congruence.
  - intros r Hc. rewrite Hc in C. destruct C as (C1 & C2 & C3).
    rewrite C3 in J. destruct r as [e|].
    + destruct J as (_ & J). congruence.
    + repeat split; auto; apply J.
Qed.
(** The ready channel is closed by a start that gets past all checks, and
    by nothing else. *)
Lemma step_closes_ready (a : Action Point) (m m' : Machine)
    (evs : list (Event Point)) :
  step a m = Some (m', evs) ->
  ready_closed m = false -> ready_closed m' = true ->
  exists resolve listen setbuf,
    a = ARunWithReady resolve listen setbuf /\
    starts (config (svc m)) resolve listen setbuf = true.
Proof.
  intros S.
  assert (E : exec a m = (m', evs)) by (unfold exec; now rewrite S).
  clear S. destruct m as [s w cd rc bf mp sp rp pp wp].
  destruct a; step_cases E; simpl; intros H0 H1; try congruence.
  all: do 3 eexists; split; [reflexivity|]; unfold starts; simpl;
    repeat match goal with
    | H : _ = false |- _ => rewrite H
    | H : _ = true |- _ => rewrite H
    end; reflexivity.
Qed.

Lemma oexec_open_blocked (d : Config) (a : OAction Point) (h h' : Harness)
    (evs : list (Event Point)) :
  good_start d a = false -> oexec a h = (h', evs) ->
  config (svc (machine h)) = d /\ ready_closed (machine h) = false /\
  (caller h = CallerIdle \/ caller h = OpenWait) ->
  config (svc (machine h')) = d /\ ready_closed (machine h') = false /\
  (caller h' = CallerIdle \/ caller h' = OpenWait).
Proof.
  intros G E (Hc & Hr & Hp). destruct h as [m c]. simpl in *.
  destruct a as [| | | |a].
  - ostep_cases E; simpl; auto.
  - ostep_cases E; simpl; auto; congruence.
  - ostep_cases E; simpl; auto; destruct Hp; discriminate.
  - ostep_cases E; simpl; auto; destruct Hp; discriminate.
  - unfold oexec, ostep, go in E. simpl in E.
    destruct (step a m) as [[m1 e1]|] eqn:S.
    + assert (K : (h', evs) = (mkHarness m c, []) \/
                  (h', evs) = (mkHarness m1 c, e1)).
      { destruct a; try (left; congruence); try (right; congruence).
        destruct c; (left; congruence) || (right; congruence). }
      destruct K as [K|K]; inversion K; subst; simpl; auto.
      assert (E1 : exec a m = (m1, e1)) by (unfold exec; now rewrite S).
      destruct (@exec_keeps_config a m m1 e1 E1) as (Kc & _).
      split; [congruence|]. split; [|exact Hp].
      destruct (ready_closed m1) eqn:R1; [|reflexivity].
      destruct (@step_closes_ready a m m1 e1 S Hr R1)
        as (x & y & z & Ha & Hs).
      subst a. simpl in G. congruence.
    + assert (K : (h', evs) = (mkHarness m c, [])).
      { destruct a; try congruence. destruct c; congruence. }
      inversion K; subst; simpl; auto.
Qed.

(** X12.  [Open] does not report a failed start: when no start in the
    schedule gets past the checks of [RunWithReady] (names set, address
    resolved, socket bound, read buffer set), the ready channel is never
    closed and the caller is still before or inside [Open], whatever else
    is scheduled; [Open] has not returned, and so [Close] was never
    called. *)
Theorem open_blocks_when_start_fails (d : Config)
    (pw : PointsWriterI Point World) (mc : MetaClientI World) (w : World)
    (acts : list (OAction Point)) :
  existsb (good_start d) acts = false ->
  let h := fst (orun acts (fresh (NewService d pw mc) w)) in
  ready_closed (machine h) = false /\
  (caller h = CallerIdle \/ caller h = OpenWait).
Proof.
  intros G h.
  assert (K : config (svc (machine h)) = d /\
              ready_closed (machine h) = false /\
              (caller h = CallerIdle \/ caller h = OpenWait)).
  { subst h.
    assert (K0 : config (svc (machine (fresh (NewService d pw mc) w))) = d /\
                 ready_closed (machine (fresh (NewService d pw mc) w))
                 = false /\
                 (caller (fresh (NewService d pw mc) w) = CallerIdle \/
                  caller (fresh (NewService d pw mc) w) = OpenWait))
      by (simpl; auto).
    revert K0. generalize (fresh (NewService d pw mc) w). revert G.
    induction acts as [|a acts IH]; intros G h0 K0; [exact K0|].
    simpl in G. apply Bool.orb_false_iff in G. destruct G as (G1 & G2).
    rewrite orun_cons. simpl.
    destruct (oexec a h0) as [h1 e1] eqn:E. simpl.
    apply IH; [exact G2|]. eapply oexec_open_blocked; eauto. }
  destruct K as (_ & K1 & K2). split; assumption.
Qed.

(** ** Shutdown that completes *)

Lemma wind_down_returns (m : Machine) :
  Inv m -> main_pc m = MainWait ->
  (List.length (parserChan (svc m)) < parserChanLen)%nat ->
  parser_pc m = ParserSelect \/ parser_pc m = ParserReturned ->
  let r := run wind_down m in
  main_pc (fst r) = MainReturned None /\
  stages_returned (fst r) /\
  (exists c, conn (svc (fst r)) = Some c /\ conn_closed c = true) /\
  creates (snd r) = [] /\ writes (snd r) = [] /\ batcher_in (snd r) = [] /\
  delivery_counters (stats (svc (fst r))) = delivery_counters (stats (svc m)) /\
  PointsReceived (stats (svc (fst r))) = PointsReceived (stats (svc m)) /\
  PointsParseFail (stats (svc (fst r))) = PointsParseFail (stats (svc m)).
Proof.
  intros I Hm Hroom Hp r. subst r.
  apply Nat.ltb_lt in Hroom.
  destruct m as [s w cd rc bf mp sp rp pp wp].
  destruct s as [cn ad g rd ch bt cfg pw mc st].
  unfold Inv, conn_state, serve_alive, parser_alive, writer_alive,
    stages_returned in *.
  simpl in *. subst mp.
  destruct I as (Hwg & Hc & Hs & Hpp & Hw & Hrc).
  assert (K : forall c : UDPConn, conn_closed (conn_Close c) = true)
    by (intros [a b c]; reflexivity).
  destruct Hp as [Hp|Hp]; subst pp;
    (destruct wp; [congruence| |]);
    (destruct sp as [| |[n [e|]]|bc|]; [congruence| | | | |]);
    subst g; try destruct Hc as (c & Hc1 & Hc2); subst;
    unfold wind_down, run, exec, step, serve, parser, writer, serve_handle,
      serve_send, serve_done, parser_done, writer_done, wait_return, wg_Done,
      update_stats;
    simpl; rewrite ?Hroom; simpl;
    repeat match goal with |- _ /\ _ => split end;
    try reflexivity; eauto.
Qed.

(** X13.  In every machine a run of a service instance can reach with its
    stages launched, the relay channel not full and the parser at its
    select (or returned): once the context is cancelled, one move of each
    stage completes the shutdown.  The listener finishes the payload it
    holds, closes the socket and returns, the parser and the writer
    return, and [RunWithReady] returns nil; no collaborator is called,
    nothing is sent to the batcher, and the parser's and the writer's
    counters are as they were. *)
Theorem shutdown_completes_when_relay_has_room (d : Config)
    (pw : PointsWriterI Point World) (mc : MetaClientI World) (w : World)
    (acts : list (Action Point)) :
  let m := fst (run acts (boot (NewService d pw mc) w)) in
  main_pc m = MainWait ->
  (List.length (parserChan (svc m)) < parserChanLen)%nat ->
  parser_pc m = ParserSelect \/ parser_pc m = ParserReturned ->
  let r := run wind_down m in
  main_pc (fst r) = MainReturned None /\
  stages_returned (fst r) /\
  (exists c, conn (svc (fst r)) = Some c /\ conn_closed c = true) /\
  creates (snd r) = [] /\ writes (snd r) = [] /\ batcher_in (snd r) = [] /\
  delivery_counters (stats (svc (fst r))) = delivery_counters (stats (svc m)) /\
  PointsReceived (stats (svc (fst r))) = PointsReceived (stats (svc m)) /\
  PointsParseFail (stats (svc (fst r))) = PointsParseFail (stats (svc m)).
Proof.
  intros m Hm Hroom Hp. apply wind_down_returns; auto.
  subst m. apply Inv_run. apply Inv_boot. reflexivity.
Qed.

(** ** Close that returns *)

Lemma orun_app (a1 a2 : list (OAction Point)) (h : Harness) :
  orun (a1 ++ a2) h =
  (fst (orun a2 (fst (orun a1 h))),
   snd (orun a1 h) ++ snd (orun a2 (fst (orun a1 h)))).
Proof.
  revert h. induction a1 as [|a a1 IH]; intros h.
  - simpl. now destruct (orun a2 h).
  - rewrite <- app_comm_cons, !orun_cons, IH. simpl.
    now rewrite app_assoc.
Qed.

(** The goroutines' moves under the harness are the machine's, as long as
    nobody else cancels and [RunWithReady] has been called. *)
Lemma oexec_go (a : Action Point) (h : Harness) :
  caller h <> CallerIdle -> a <> ACancel ->
  oexec (OGo a) h
  = (mkHarness (fst (exec a (machine h))) (caller h),
     snd (exec a (machine h))).
Proof.
  intros Hc Ha. destruct h as [m c]. simpl in *.
  unfold oexec, ostep, go, exec. simpl.
  destruct a; try congruence;
    try (destruct (step _ m) as [[m1 e1]|]; reflexivity).
  destruct c; try congruence;
    destruct (step _ m) as [[m1 e1]|]; reflexivity.
Qed.

Lemma orun_go (acts : list (Action Point)) (h : Harness) :
  caller h <> CallerIdle -> ~ In ACancel acts ->
  orun (map (@OGo Point) acts) h
  = (mkHarness (fst (run acts (machine h))) (caller h),
     snd (run acts (machine h))).
Proof.
  revert h. induction acts as [|a acts IH]; intros h Hc Ha.
  - destruct h; reflexivity.
  - simpl map. rewrite orun_cons, run_cons, oexec_go; auto.
    + simpl fst. simpl snd. rewrite IH; auto.
      intros K. apply Ha. now right.
    + intros K. apply Ha. now left.
Qed.

(** X14.  In every harness state reachable with the caller back from
    [Open], the relay channel not full and the parser at its select:
    [Close], followed by one move of each stage, returns nil to its
    caller, with all three stages returned and the socket closed. *)
Theorem close_returns_when_relay_has_room (d : Config)
    (pw : PointsWriterI Point World) (mc : MetaClientI World) (w : World)
    (acts : list (OAction Point)) :
  let h := fst (orun acts (fresh (NewService d pw mc) w)) in
  caller h = Opened ->
  (List.length (parserChan (svc (machine h))) < parserChanLen)%nat ->
  parser_pc (machine h) = ParserSelect ->
  let h' := fst (orun close_down h) in
  caller h' = Closed None /\
  stages_returned (machine h') /\
  (exists c, conn (svc (machine h')) = Some c /\ conn_closed c = true).
Proof.
  intros h Hc Hroom Hp h'.
  assert (H : HInv h).
  { subst h. apply HInv_orun. now apply HInv_fresh. }
  destruct H as (I & R & C). rewrite Hc in C. destruct C as (C1 & C2).
  assert (Hm : main_pc (machine h) = MainWait).
  { pose proof I as (_ & _ & J).
    destruct (main_pc (machine h)) as [| |[e|]].
    - destruct J as (_ & J). congruence.
    - reflexivity.
    - destruct J as (_ & J). congruence.
    - assert (K : ctx_done (machine h) = true)
        by (apply R; left; apply J).
      congruence. }
  destruct (@wind_down_returns (machine h) I Hm Hroom (or_introl Hp))
    as (W1 & W2 & W3 & _).
  assert (E : fst (run (tl wind_down) (set_ctx_done true (machine h)))
              = fst (run wind_down (machine h)))
    by (unfold wind_down; simpl tl; rewrite (run_cons Parse ACancel);
        reflexivity).
  assert (EO : oexec OClose h
               = (mkHarness (set_ctx_done true (machine h)) CloseWait, [])).
  { unfold oexec, ostep, Close. now rewrite Hc. }
  subst h'. unfold close_down.
  rewrite orun_cons, orun_app, EO.
  rewrite orun_go;
    [|simpl; discriminate
     |simpl; intros K; repeat destruct K as [K|K]; try discriminate K;
      exact K].
  cbn [fst snd machine caller]. rewrite E, orun_cons.
  unfold oexec, ostep, Close_return. cbn [fst snd machine caller].
  rewrite W1. cbn [fst snd machine caller orun].
  split; [reflexivity|]. split; assumption.
Qed.

(** ** Reads and the bytes counted *)

(** One move: what is counted and what waits to be counted grow together
    by the bytes the move reads; what waits grows by no more. *)
Lemma exec_read_tally (a : Action Point) (m m' : Machine)
    (evs : list (Event Point)) :
  Inv m -> InvBuf m -> exec a m = (m', evs) ->
  Int64.wrap (BytesReceived (stats (svc m')) + uncounted m') =
    Int64.wrap (BytesReceived (stats (svc m)) + uncounted m
                + total_bytes (datagram_read Parse a m)) /\
  uncounted m' <= uncounted m + total_bytes (datagram_read Parse a m) /\
  0 <= total_bytes (datagram_read Parse a m).
Proof.
  intros (_ & _ & I) (Hb & Hr & Hs & _) E.
  assert (N : 0 <= total_bytes (datagram_read Parse a m))
    by (unfold total_bytes; lia).
  split; [|split; [|exact N]]; clear N.
  all: destruct m as [s w cd rc bf mp sp rp pp wp].
  all: unfold stages_idle in I; unfold payload_fits in *; simpl in *.
  all: destruct a; step_cases E;
    unfold uncounted, payload_bytes, total_bytes, datagram_read, enabled,
      step, serve, read_from_udp;
    simpl in *; split_ands; subst; simpl;
    repeat match goal with
    | H : conn _ = _ |- _ => rewrite H
    | H : conn_closed _ = _ |- _ => rewrite H
    | H : err _ = _ |- _ => rewrite H
    end; simpl;
    rewrite ?app_nil_r, ?length_firstn, ?Nat.add_0_r;
    try match goal with
        | H : None = None -> _ |- _ => specialize (H eq_refl)
        end;
    unfold AddInt64; rewrite ?wrap_add_l;
    try (f_equal; lia); try lia.
  all: match goal with
       | r : (bytes + error)%type |- _ => destruct r; simpl
       end; try (f_equal; lia); lia.
Qed.

Lemma run_read_tally (acts : list (Action Point)) (m : Machine) :
  Inv m -> InvBuf m ->
  let r := run acts m in
  Int64.wrap (BytesReceived (stats (svc (fst r))) + uncounted (fst r)) =
    Int64.wrap (BytesReceived (stats (svc m)) + uncounted m
                + total_bytes (datagrams_read Parse acts m)) /\
  uncounted (fst r) <= uncounted m + total_bytes (datagrams_read Parse acts m).
Proof.
  revert m. induction acts as [|a acts IH]; intros m I B r; subst r.
  - simpl. unfold total_bytes. simpl. rewrite !Z.add_0_r.
    split; [reflexivity|lia].
  - rewrite run_cons. cbn [datagrams_read].
    destruct (exec a m) as [m1 e1] eqn:E. cbn [fst snd].
    destruct (@exec_read_tally a m m1 e1 I B E) as (R1 & U1 & _).
    destruct (@InvBuf_exec a m m1 e1 I B E) as (B1 & _).
    assert (I1 : Inv m1) by (eapply Inv_exec; eauto).
    destruct (IH m1 I1 B1) as (R2 & U2).
    rewrite total_bytes_app. split; [|lia].
    rewrite R2, <- wrap_add_l, R1, wrap_add_l. f_equal; lia.
Qed.

(** What waits to be counted is a byte count. *)
Lemma uncounted_nonneg (m : Machine) : InvBuf m -> 0 <= uncounted m.
Proof.
  intros (_ & Hr & Hs & _). unfold uncounted, payload_bytes, payload_fits in *.
  destruct (reader_pc m) as [| |p]; destruct (serve_pc m) as [| |q| |];
    try destruct (err p); try destruct (err q);
    repeat match goal with
           | H : None = None -> _ |- _ => specialize (H eq_refl)
           end; lia.
Qed.

(** Once the listener has returned, nothing is counted any more. *)
Lemma bytes_frozen (acts : list (Action Point)) (m : Machine) :
  Inv m -> serve_pc m = ServeReturned ->
  BytesReceived (stats (svc (fst (run acts m))))
  = BytesReceived (stats (svc m)).
Proof.
  revert m. induction acts as [|a acts IH]; intros m I Hs; [reflexivity|].
  rewrite run_cons. simpl. destruct (exec a m) as [m1 e1] eqn:E. simpl.
  destruct (@serve_returned_final Point World Parse a m m1 e1 I Hs E)
    as (Hs1 & _).
  assert (I1 : Inv m1) by (eapply Inv_exec; eauto).
  rewrite (IH m1 I1 Hs1).
  destruct m as [s w cd rc bf mp sp rp pp wp]. simpl in Hs. subst sp.
  destruct a; step_cases E; reflexivity.
Qed.

(** Only the success branch of the listener's payload case changes
    BytesReceived. *)
Lemma bytes_change_only_on_success (a : Action Point) (m : Machine) :
  BytesReceived (stats (svc (fst (exec a m))))
  <> BytesReceived (stats (svc m)) ->
  a = AServeHandle /\
  exists p, serve_pc m = ServePayload p /\ err p = None.
Proof.
  intros H. destruct (exec a m) as [m1 e1] eqn:E. simpl in H.
  destruct m as [s w cd rc bf mp sp rp pp wp].
  destruct a; step_cases E; simpl in *; try congruence.
  split; [reflexivity|]. eauto.
Qed.

(** C10, as amended.  Over any run of a service instance BytesReceived
    is (as an int64) the total byte count of the datagrams read so far,
    less the bytes of the payloads that still wait to be counted: the one
    the read loop is about to hand over and the one the listener has
    received and not yet handled.  It is the plain difference as long as
    the total is an int64.  All of it is counted before the copy goes into
    the relay channel, so before any decoding: BytesReceived is the size
    of what has been relayed plus the copy in hand, and no move of the
    parser changes it, whatever the decoder answers.  Only the success
    branch of the listener's payload case changes it, by the payload's
    byte count; the failure branch adds one to ReadFail instead.  Once
    the listener has returned BytesReceived never changes again, so a
    datagram read and still waiting then is never counted. *)
Theorem bytes_counted_when_received (d : Config)
    (pw : PointsWriterI Point World) (mc : MetaClientI World) (w : World)
    (acts : list (Action Point)) :
  let m0 := boot (NewService d pw mc) w in
  let r := run acts m0 in
  let read := total_bytes (datagrams_read Parse acts m0) in
  BytesReceived (stats (svc (fst r))) = Int64.wrap (read - uncounted (fst r)) /\
  0 <= uncounted (fst r) <= read /\
  (Int64.in_range read ->
   BytesReceived (stats (svc (fst r))) = read - uncounted (fst r)) /\
  BytesReceived (stats (svc (fst r))) =
    Int64.wrap (total_bytes (relayed (snd r)) + copy_in_hand (fst r)) /\
  (forall a (m : Machine),
     parser_action a = true ->
     BytesReceived (stats (svc (fst (exec a m))))
     = BytesReceived (stats (svc m))) /\
  (forall a (m : Machine),
     BytesReceived (stats (svc (fst (exec a m))))
     <> BytesReceived (stats (svc m)) ->
     a = AServeHandle /\
     exists p, serve_pc m = ServePayload p /\ err p = None) /\
  (forall (m : Machine) p,
     serve_pc m = ServePayload p ->
     let m' := fst (exec AServeHandle m) in
     (err p = None ->
      BytesReceived (stats (svc m'))
      = AddInt64 (BytesReceived (stats (svc m))) (nbytes p) /\
      ReadFail (stats (svc m')) = ReadFail (stats (svc m)) /\
      snd (exec AServeHandle m) = []) /\
     (err p <> None ->
      BytesReceived (stats (svc m')) = BytesReceived (stats (svc m)) /\
      ReadFail (stats (svc m')) = AddInt64 (ReadFail (stats (svc m))) 1)) /\
  (serve_pc (fst r) = ServeReturned ->
   forall more,
     BytesReceived (stats (svc (fst (run more (fst r)))))
     = BytesReceived (stats (svc (fst r)))).
Proof.
  intros m0 r read.
  assert (I0 : Inv m0) by (apply Inv_boot; reflexivity).
  assert (B0 : InvBuf m0) by apply InvBuf_boot.
  assert (H0 : counters_in_range (stats (svc m0)))
    by apply counters_in_range_zero.
  assert (I : Inv (fst r)) by now apply Inv_run.
  assert (B : InvBuf (fst r)) by now apply InvBuf_run.
  assert (H : counters_in_range (stats (svc (fst r))))
    by now apply counters_in_range_run.
  destruct (@run_read_tally acts m0 I0 B0) as (R & U).
  fold r in R, U. fold read in R, U.
  change (BytesReceived (stats (svc m0))) with 0 in R.
  change (uncounted m0) with 0 in R, U.
  pose proof (uncounted_nonneg B) as N.
  assert (Hb : Int64.in_range (BytesReceived (stats (svc (fst r)))))
    by apply H.
  assert (E : BytesReceived (stats (svc (fst r)))
              = Int64.wrap (read - uncounted (fst r))).
  { rewrite <- (wrap_in_range Hb).
    replace (BytesReceived (stats (svc (fst r))))
      with (BytesReceived (stats (svc (fst r))) + uncounted (fst r)
            + - uncounted (fst r)) at 1 by lia.
    rewrite <- wrap_add_l, R, wrap_add_l. f_equal; lia. }
  split; [exact E|]. split; [lia|]. split.
  { intros Hr. rewrite E. apply wrap_in_range.
    unfold Int64.in_range, Int64.min, Int64.max in *. lia. }
  split.
  { destruct (@run_listener_tally acts m0 I0 B0 H0) as (L & _).
    fold r in L. change (BytesReceived (stats (svc m0))) with 0 in L.
    change (copy_in_hand m0) with 0 in L.
    rewrite <- (wrap_in_range Hb).
    replace (BytesReceived (stats (svc (fst r))))
      with (BytesReceived (stats (svc (fst r))) - copy_in_hand (fst r)
            + copy_in_hand (fst r)) at 1 by lia.
    rewrite <- wrap_add_l, L, wrap_add_l. f_equal; lia. }
  split.
  { intros a m Ha. destruct (exec a m) as [m2 e2] eqn:Ex. simpl.
    eapply bytes_received_kept; [|exact Ex].
    intros ->. discriminate Ha. }
  split; [exact bytes_change_only_on_success|]. split.
  { intros m p Hs m'. subst m'.
    destruct m as [s w' cd rc bf mp sp rp pp wp]. simpl in Hs. subst sp.
    unfold exec, step, serve, serve_handle. simpl.
    destruct (err p) as [e|]; simpl; split; intros K; try congruence; auto. }
  intros Hs more. now apply bytes_frozen.
Qed.

End MoreProperties.

(** * The theorems at work on the test doubles *)

Import Doubles Scenarios.

(** The payload [x01 x02] is taken, sent and counted while the context is
    cancelled and the writer handles a batch in between. *)
Lemma parser_forwards_then_counts_witness :
  batcher_in (snd (run parse interleaved fed)) = [1%nat; 2%nat] /\
  PointsReceived (stats (svc (fst (run parse interleaved fed)))) = 2.
Proof.
  assert (Hm : main_pc fed <> MainIdle) by (vm_compute; discriminate).
  assert (Hpc : parser_pc fed = ParserSelect) by (vm_compute; reflexivity).
  assert (Hch : parserChan (svc fed) = [x01; x02] :: [])
    by (vm_compute; reflexivity).
  destruct (@parser_forwards_then_counts TPoint TWorld parse fed [x01; x02] []
              5 Hm Hpc Hch) as (Hok & _ & _).
  destruct (Hok [1%nat; 2%nat] interleaved
              (fst (run parse interleaved fed))
              (snd (run parse interleaved fed)))
    as (_ & B & _ & R & _ & _).
  - vm_compute; reflexivity.
  - vm_compute; reflexivity.
  - apply surjective_pairing.
  - split; [exact B|].
    etransitivity; [apply R; vm_compute; split; discriminate|].
    vm_compute; reflexivity.
Defined.

(** The payload [x01 xff]: the decoder returns the point 1 and an error,
    and the point is dropped. *)
Lemma parser_rejects_malformed_witness :
  exists m',
    step parse (AParserRecv 5) fed_malformed
    = Some (m', [EvParse [x01; xff] 5; EvLog "Failed to parse points"]) /\
    PointsParseFail (stats (svc m')) = 1 /\
    PointsReceived (stats (svc m')) = 0 /\
    parser_pc m' = ParserSelect.
Proof.
  assert (Hpc : parser_pc fed_malformed = ParserSelect)
    by (vm_compute; reflexivity).
  assert (Hch : parserChan (svc fed_malformed) = [x01; xff] :: [])
    by (vm_compute; reflexivity).
  assert (Hp : parse [x01; xff] 5 (Precision (config (svc fed_malformed)))
               = ([1%nat], Some "unable to parse"%string))
    by (vm_compute; reflexivity).
  destruct (@parser_rejects_malformed TPoint TWorld parse fed_malformed
              [x01; xff] [] 5 [1%nat] "unable to parse"%string Hpc Hch Hp)
    as (S & F & _ & R & _ & _ & _ & _ & _ & _ & _ & _ & Pc & _).
  eexists. split; [exact S|]. split; [|split; [|exact Pc]].
  - rewrite F. vm_compute; reflexivity.
  - rewrite R. vm_compute; reflexivity.
Defined.

(** After a failed write of two points, a batch of three is written. *)
Lemma writer_delivers_or_drops_witness :
  exists m' evs,
    step parse (AWriterRecv [3%nat; 4%nat; 5%nat]) after_failed_write
    = Some (m', evs) /\
    writes evs = [([3%nat; 4%nat; 5%nat], None)] /\
    BatchesTransmitted (stats (svc m')) = 1 /\
    PointsTransmitted (stats (svc m')) = 3 /\
    BatchesTransmitFail (stats (svc m')) = 1.
Proof.
  assert (Hpc : writer_pc after_failed_write = WriterSelect)
    by (vm_compute; reflexivity).
  assert (Hr : ready (svc after_failed_write) = true)
    by (vm_compute; reflexivity).
  assert (Hc : createInternalStorage after_failed_write
               = (None, after_failed_write, []))
    by (unfold createInternalStorage; rewrite Hr; reflexivity).
  destruct (@writer_delivers_or_drops TPoint TWorld parse after_failed_write
              after_failed_write [] [3%nat; 4%nat; 5%nat] Hpc Hc)
    as (m' & evs & S & _ & Wr & Ok & _ & _ & _ & _ & _ & _).
  exists m', evs. split; [exact S|]. split; [exact Wr|].
  destruct Ok as (B & P & F & _ & _); [vm_compute; reflexivity|].
  rewrite B, P, F. vm_compute. auto.
Defined.

(** The first batch of a service whose meta client fails once. *)
Lemma writer_drops_batch_when_creation_fails_witness :
  step parse (AWriterRecv [1%nat; 2%nat]) (started 1)
  = Some (set_world (1%nat, 0%nat) (started 1),
          [EvCreateDatabase "udp" (Some "database unavailable"%string);
           EvLog "Required database does not yet exist"]) /\
  stats (svc (set_world (1%nat, 0%nat) (started 1))) = zeroStatistics.
Proof.
  assert (Hpc : writer_pc (started 1) = WriterSelect)
    by (vm_compute; reflexivity).
  assert (Hr : ready (svc (started 1)) = false) by (vm_compute; reflexivity).
  assert (Hc : CreateDatabase (MetaClient (svc (started 1)))
                 (Database (config (svc (started 1)))) (world (started 1))
               = (Some "database unavailable"%string, (1%nat, 0%nat)))
    by (vm_compute; reflexivity).
  destruct (@writer_drops_batch_when_creation_fails TPoint TWorld parse
              (started 1) [1%nat; 2%nat] "database unavailable"%string
              (1%nat, 0%nat) Hpc Hr Hc)
    as (S & _ & _ & _ & St & _).
  split; [exact S|]. vm_compute; reflexivity.
Defined.

(** C6 as stated fails: while the meta client keeps failing, each arriving
    batch calls creation again; here two batches make two calls. *)
Lemma creation_called_once_per_batch_while_failing :
  creates (snd (run parse two_batches (boot (service 2 0) world0)))
  = [Some "database unavailable"%string; Some "database unavailable"%string]
  /\
  List.length
    (creates (snd (run parse two_batches (boot (service 2 0) world0))))
  = 2%nat.
Proof. split; vm_compute; reflexivity. Qed.

(** A service without a bind address, whatever is scheduled after the
    start. *)
Lemma startup_failure_is_fatal_witness :
  exists e,
    main_pc
      (fst (run parse [start; ACancel; AServeDone; AWaitReturn]
              (boot (NewService cfg_no_bind (writerFailing 0) (metaFailing 0))
                 world0)))
    = MainReturned (Some e) /\
    ready_closed
      (fst (run parse [start; ACancel; AServeDone; AWaitReturn]
              (boot (NewService cfg_no_bind (writerFailing 0) (metaFailing 0))
                 world0)))
    = false.
Proof.
  destruct (@startup_failure_is_fatal TPoint TWorld parse
              (NewService cfg_no_bind (writerFailing 0) (metaFailing 0))
              world0 (inl ":8089"%string) None None
              [ACancel; AServeDone; AWaitReturn] (or_introl eq_refl))
    as (e & _ & _ & M & _ & R & _).
  exists e. split; [exact M | exact R].
Defined.

(** A datagram of three bytes read by a freshly started service. *)
Lemma bytes_counted_on_read_witness :
  BytesReceived
    (stats (svc (fst (run parse (read_and_handle (inl [x01; x02; x03]))
                        (started 0)))))
  = 3 /\
  serve_pc (fst (run parse (read_and_handle (inl [x01; x02; x03])) (started 0)))
  = ServeSend [x01; x02; x03].
Proof.
  assert (Hs : serve_pc (started 0) = ServeSelect) by (vm_compute; reflexivity).
  assert (Hr : reader_pc (started 0) = ReaderRead) by (vm_compute; reflexivity).
  assert (Hc : conn (svc (started 0)) = Some (mkUDPConn ":8089"%string None false))
    by (vm_compute; reflexivity).
  assert (Hl : (List.length [x01; x02; x03] <= List.length (buf (started 0)))%nat)
    by (apply Nat.leb_le; vm_compute; reflexivity).
  destruct (@bytes_counted_on_read TPoint TWorld parse (started 0)
              (mkUDPConn ":8089"%string None false) [x01; x02; x03] Hs Hr Hc eq_refl Hl)
    as ((_ & B & _ & S & _) & _ & _).
  split; [|exact S].
  etransitivity; [apply B; vm_compute; split; discriminate|].
  vm_compute; reflexivity.
Defined.

(** C9 as stated fails: at shutdown the listener closes the socket and
    returns at once; the read in flight then fails, but its failure stays
    with the read loop and is never counted: ReadFail is 0 when
    [RunWithReady] has returned and stays 0 whatever happens next. *)
Lemma read_failure_at_shutdown_is_not_counted :
  ctx_done stopped = true /\
  main_pc stopped = MainReturned None /\
  serve_pc stopped = ServeReturned /\
  conn (svc stopped) = Some (mkUDPConn ":8089"%string None true) /\
  reader_pc stopped = ReaderHandoff (mkReadpayload 0 (Some closed_error)) /\
  ReadFail (stats (svc stopped)) = 0 /\
  forall acts,
    ReadFail (stats (svc (fst (run parse acts stopped)))) = 0.
Proof.
  do 6 (split; [vm_compute; reflexivity|]).
  intros acts.
  assert (I : Inv stopped).
  { unfold stopped. apply Inv_run. apply Inv_boot. reflexivity. }
  destruct (@read_fail_frozen TPoint TWorld parse acts stopped I) as (_ & R).
  - vm_compute; reflexivity.
  - rewrite R. vm_compute; reflexivity.
Qed.

(** The machine reached by [jam] is jammed, and neither the send, nor the
    listener's cancellation branch, nor the wait can move. *)
Lemma blocked_listener_never_returns_witness :
  jammed jam_machine /\
  ctx_done jam_machine = true /\
  writer_pc jam_machine = WriterReturned /\
  main_pc (fst (run parse [AServeSend; AServeDone; AWaitReturn] jam_machine))
  = MainWait.
Proof.
  assert (J : jammed jam_machine).
  { unfold jammed. split; [exists []; vm_compute; reflexivity|].
    split; [vm_compute; reflexivity|]. split; vm_compute; reflexivity. }
  assert (I : Inv jam_machine).
  { unfold jam_machine. apply Inv_run. apply Inv_boot. reflexivity. }
  split; [exact J|]. split; [vm_compute; reflexivity|].
  split; [vm_compute; reflexivity|].
  apply (@blocked_listener_never_returns TPoint TWorld parse jam_machine
           [AServeSend; AServeDone; AWaitReturn] I J).
Defined.

(** [x09 x09] arrives between the receipt of [x01 x02] and the copy. *)
Lemma copy_races_with_next_read_witness :
  relayed
    (snd (run parse (read_overtakes_copy [x01; x02] [x09; x09]) (started 0)))
  = [[x09; x09]] /\
  BytesReceived
    (stats
       (svc (fst (run parse (read_overtakes_copy [x01; x02] [x09; x09])
                    (started 0)))))
  = 2.
Proof.
  assert (Hs : serve_pc (started 0) = ServeSelect) by (vm_compute; reflexivity).
  assert (Hr : reader_pc (started 0) = ReaderRead) by (vm_compute; reflexivity).
  assert (Hc : conn (svc (started 0))
               = Some (mkUDPConn ":8089"%string None false))
    by (vm_compute; reflexivity).
  assert (Hl : (List.length [x09; x09] <= List.length (buf (started 0)))%nat)
    by (apply Nat.leb_le; vm_compute; reflexivity).
  assert (Hp : (List.length (parserChan (svc (started 0))) < parserChanLen)%nat)
    by (apply Nat.ltb_lt; vm_compute; reflexivity).
  destruct (@copy_races_with_next_read TPoint TWorld parse (started 0)
              (mkUDPConn ":8089"%string None false) [x01; x02] [x09; x09]
              Hs Hr Hc eq_refl eq_refl Hl Hp)
    as (R & _ & B & _).
  split; [exact R|].
  etransitivity; [exact B|]. vm_compute; reflexivity.
Defined.

(** * The further theorems at work on the test doubles *)

Import Lifecycles.

(** Port 8089 is bound, the buffer size of 4096 is refused: the socket
    is still open after cancellation. *)
Lemma read_buffer_failure_leaves_socket_open_witness :
  ReadBuffer cfg_read_buffer = 4096 /\
  conn (svc (fst (run parse
                    (ARunWithReady (inl ":8089"%string) None (Some refused)
                       :: after_refusal)
                    (boot (NewService cfg_read_buffer (writerFailing 0)
                             (metaFailing 0)) world0))))
  = Some (mkUDPConn ":8089"%string None false).
Proof.
  split; [reflexivity|].
  destruct (@read_buffer_failure_leaves_socket_open TPoint TWorld parse
              (NewService cfg_read_buffer (writerFailing 0) (metaFailing 0))
              world0 ":8089"%string refused after_refusal)
    as (_ & C & _).
  - vm_compute; discriminate.
  - vm_compute; discriminate.
  - vm_compute; discriminate.
  - exact C.
Defined.

(** The name does not resolve: the caller is still inside [Open] after
    every move of [failing_open]. *)
Lemma open_blocks_when_start_fails_witness :
  existsb (good_start cfg) failing_open = false /\
  caller (fst (orun parse failing_open (fresh (service 0 0) world0)))
  = OpenWait.
Proof.
  assert (G : existsb (good_start cfg) failing_open = false)
    by (vm_compute; reflexivity).
  split; [exact G|].
  destruct (@open_blocks_when_start_fails TPoint TWorld parse cfg
              (writerFailing 0) (metaFailing 0) world0 failing_open G)
    as (_ & [K|K]).
  - vm_compute in K. discriminate K.
  - exact K.
Defined.

(** [open_close] gets the caller back from [Close] with nil. *)
Lemma open_and_close_bracket_the_run_witness :
  caller (fst (orun parse open_close (fresh (service 0 0) world0)))
  = Closed None /\
  stages_returned
    (machine (fst (orun parse open_close (fresh (service 0 0) world0)))).
Proof.
  assert (C : caller (fst (orun parse open_close (fresh (service 0 0) world0)))
              = Closed None) by (vm_compute; reflexivity).
  split; [exact C|].
  destruct (@open_and_close_bracket_the_run TPoint TWorld parse cfg
              (writerFailing 0) (metaFailing 0) world0 open_close)
    as (_ & _ & K).
  destruct (K None C) as (_ & _ & S & _). exact S.
Defined.

(** The started service with one payload in the relay channel shuts down
    in the seven moves of [wind_down]. *)
Lemma shutdown_completes_when_relay_has_room_witness :
  main_pc fed = MainWait /\ parser_pc fed = ParserSelect /\
  List.length (parserChan (svc fed)) = 1%nat /\
  main_pc (fst (run parse wind_down fed)) = MainReturned None.
Proof.
  unfold fed, service.
  set (m := fst (run parse (relay [x01; x02])
                   (boot (NewService cfg (writerFailing 0) (metaFailing 0))
                      world0))).
  assert (Hm : main_pc m = MainWait) by (vm_compute; reflexivity).
  assert (Hp : parser_pc m = ParserSelect) by (vm_compute; reflexivity).
  assert (Hl : List.length (parserChan (svc m)) = 1%nat)
    by (vm_compute; reflexivity).
  assert (Hr : (List.length (parserChan (svc m)) < parserChanLen)%nat)
    by (rewrite Hl; unfold parserChanLen; lia).
  split; [exact Hm|]. split; [exact Hp|]. split; [exact Hl|].
  exact (proj1 (@shutdown_completes_when_relay_has_room TPoint TWorld parse
                  cfg (writerFailing 0) (metaFailing 0) world0
                  (relay [x01; x02]) Hm Hr (or_introl Hp))).
Defined.

(** After [open_relay] the caller is back from [Open]; [Close] then
    returns nil. *)
Lemma close_returns_when_relay_has_room_witness :
  caller (fst (orun parse open_relay (fresh (service 0 0) world0))) = Opened /\
  caller
    (fst (orun parse close_down
            (fst (orun parse open_relay (fresh (service 0 0) world0)))))
  = Closed None.
Proof.
  assert (Hc : caller (fst (orun parse open_relay
                              (fresh (service 0 0) world0))) = Opened)
    by (vm_compute; reflexivity).
  assert (Hl : List.length
                 (parserChan
                    (svc (machine (fst (orun parse open_relay
                                          (fresh (service 0 0) world0))))))
               = 1%nat) by (vm_compute; reflexivity).
  assert (Hr : (List.length
                  (parserChan
                     (svc (machine (fst (orun parse open_relay
                                           (fresh (service 0 0) world0))))))
                < parserChanLen)%nat)
    by (rewrite Hl; unfold parserChanLen; lia).
  assert (Hp : parser_pc (machine (fst (orun parse open_relay
                                          (fresh (service 0 0) world0))))
               = ParserSelect) by (vm_compute; reflexivity).
  split; [exact Hc|].
  destruct (@close_returns_when_relay_has_room TPoint TWorld parse cfg
              (writerFailing 0) (metaFailing 0) world0 open_relay Hc Hr Hp)
    as (K & _).
  exact K.
Defined.

(** C7 fails on [overtaken]: the datagrams [x01 x02] and [x09 x09] are
    read in that order and each decodes on its own, to the points 1, 2 and
    9, 9; the second read lands in the shared buffer before the listener
    has copied the first, so the listener relays [x09 x09] twice and the
    batcher is handed 9, 9, 9, 9, although everything relayed has been
    decoded and sent. *)
Lemma second_datagram_decoded_twice :
  datagrams_read parse overtaken (boot (service 0 0) world0)
  = [[x01; x02]; [x09; x09]] /\
  flat_map (fun b => fst (decode b)) [[x01; x02]; [x09; x09]]
  = [1%nat; 2%nat; 9%nat; 9%nat] /\
  snd (decode [x01; x02]) = None /\ snd (decode [x09; x09]) = None /\
  relayed (snd (run parse overtaken (boot (service 0 0) world0)))
  = [[x09; x09]; [x09; x09]] /\
  batcher_in (snd (run parse overtaken (boot (service 0 0) world0)))
  = [9%nat; 9%nat; 9%nat; 9%nat] /\
  parserChan (svc (fst (run parse overtaken (boot (service 0 0) world0))))
  = [] /\
  parser_pc (fst (run parse overtaken (boot (service 0 0) world0)))
  = ParserSelect /\
  PointsParseFail
    (stats (svc (fst (run parse overtaken (boot (service 0 0) world0)))))
  = 0.
Proof.
  repeat match goal with |- _ /\ _ => split end; vm_compute; reflexivity.
Qed.

(** C10 as stated fails on [stranded_read]: the datagram [x01 x02] is
    read, the context is cancelled before the listener receives the
    payload, and every stage and [RunWithReady] return; BytesReceived is
    0 then and in every continuation. *)
Lemma read_before_shutdown_is_never_counted :
  datagrams_read parse stranded_read (boot (service 0 0) world0)
  = [[x01; x02]] /\
  reader_pc (fst (run parse stranded_read (boot (service 0 0) world0)))
  = ReaderHandoff (mkReadpayload 2 None) /\
  main_pc (fst (run parse stranded_read (boot (service 0 0) world0)))
  = MainReturned None /\
  forall more,
    BytesReceived
      (stats
         (svc (fst (run parse more
                      (fst (run parse stranded_read
                              (boot (service 0 0) world0)))))))
    = 0.
Proof.
  split; [vm_compute; reflexivity|]. split; [vm_compute; reflexivity|].
  split; [vm_compute; reflexivity|]. intros more.
  set (m := fst (run parse stranded_read (boot (service 0 0) world0))).
  assert (I : Inv m).
  { unfold m. apply Inv_run. apply Inv_boot. reflexivity. }
  assert (S : serve_pc m = ServeReturned) by (vm_compute; reflexivity).
  rewrite (@bytes_frozen TPoint TWorld parse more m I S).
  vm_compute. reflexivity.
Qed.
